(* ===== verification/_CoqProject ===== *)
-Q . S2P
Prelude.v
JsNumber.v
JsValue.v
ParseInt.v
JsEquiv.v
Categories.v
Indexer.v
Async.v
Xml.v
XmlParse.v
Jackett.v
Documents.v
Urls.v
Errors.v
