(* ===== verification/Prelude.v ===== *)
(** * A verification development of jackett-sync-ts: the Jackett client

    The repository synchronises the indexers configured in a Jackett
    server with downstream applications.  The part modelled here is
    its only source file, [src/jackett.ts]: the class [Jackett], whose
    method [get] asks Jackett for the list of configured indexers (a
    torznab XML document), lets [fast-xml-parser] turn it into a
    JavaScript object, rejects it when it carries an [error] element,
    and otherwise maps every [indexer] entry to an [Indexer] record
    through [mapToIndexer], whose categories come from the static
    helper [parseCategories].

    The program only manipulates JavaScript values, so the development
    first models the small part of the ECMAScript semantics the code
    relies on, then the code on top of it.

    Files, in dependency order (the [_CoqProject] lists them so):
    - [Prelude] (this file): JavaScript exceptions ([exn]: a
      [TypeError] with its reason, an [Error] with a message, or the
      rejection of the HTTP request), the
      completion type [res] of a computation that returns or throws,
      a small state monad [St] over [res] for code that pushes into a
      local array while it may throw, [js_map] (Array.prototype.map
      with a throwing callback), notation in [js_scope], the hint
      databases [js] and [js_rw], and the list and string lemmas the
      components share (among them [st_map_blocks]: a push loop is a
      map followed by a concatenation).
    - [JsNumber]: the JavaScript numbers the program can produce
      (NaN, the infinities and the integral doubles, including -0),
      rounding of a mathematical integer to the nearest double
      ([round_double]), decimal printing of naturals, and
      Number::toString on these numbers.
    - [JsValue]: the values [fast-xml-parser] produces ([jsval]:
      undefined, null, booleans, numbers, strings, arrays and plain
      objects), truthiness ([truthy]), [Array.isArray], property read
      with its TypeError on undefined and null ([get_prop]), and
      ToString ([to_string]) with its TypeError on objects whose own
      [toString] is not callable.
    - [ParseInt]: the global [parseInt] with no radix, following
      ECMA-262 (whitespace, sign, [0x] prefix, longest digit prefix,
      rounding to a double).
    - [JsEquiv]: parsed values up to the order of their properties
      ([jequiv], stdpp's [Equiv] of [jsval], an equivalence), the
      lifting [res_equiv] to completions, and the [Proper] instances
      of the operations above: the code reads objects only through
      [get_prop], which sees the first property of each name.
    - [Categories]: [Jackett.parseCategories] as the code writes it
      (a [categories] array filled by [push] inside [map] callbacks),
      the abstract category tree of the spec ([RawCategory]) with the
      decoder from parsed XML and the encoder of fast-xml-parser's
      layout, the flattening it must compute, and a stateless
      reference ([parseCategories_ref]).
    - [Indexer]: the [Indexer] record and the configuration the class
      reads ([Config.jackett]); both live outside [src/] and are
      modelled from the spec.
    - [Async]: programs that await HTTP answers ([Async]: [Done] or
      [AwaitGet] with a continuation), the type classes [HttpTransport]
      (axios) and [XmlParser] (fast-xml-parser) with the parser's
      options type, running a program against a transport ([run]), the
      requests it issues ([requests]).
    - [Xml]: the XML documents Jackett sends ([xml]: elements with
      attributes and children, or with text), their text
      ([print_xml]), and the layout fast-xml-parser gives them
      ([xml_value]: attributes as string properties, one property per
      child tag, a repeated tag as an array, an empty element as the
      empty string); [XmlParserLaws] is the promise of the parser to
      the client, up to property order.
    - [XmlParse]: a model parser, a recursive-descent reader of
      [print_xml]'s text with its round trip, which keeps the promise
      ([model_parser_laws]), so that the theorems assuming it are not
      vacuous.
    - [Jackett]: the class state and its constructor, [mapToIndexer],
      the body of [get] after the response is parsed, and [get] itself
      as an [Async] program that awaits one HTTP request, with the
      spec's records ([normalize]) and the shape the signature
      promises of them ([indexer_typed]).
    - [Documents]: the torznab documents of the spec (an [indexers]
      element with [indexer] children, an [error] element) and [get]
      run end to end on their text: transport, parser and client
      composed.
    - [Urls]: what a server reads from the two URLs the class builds
      by template literals ([requestUrl] in the constructor, the
      endpoint in [mapToIndexer]): a reader of URLs after the WHATWG
      standard ([split_on], [break_at], [url_path], [url_query],
      [form_params] with [+] and [%XY] decoding).
    - [Errors]: the exceptions [get] can reject with;
      [type_errors_only] carried through every operation by the hint
      database [exn].

    How the parts interact: [get] awaits [axios.get(requestUrl)]
    ([HttpTransport]), hands the body to [parse] ([XmlParser]), runs
    [get_parsed] on the result, which reads [error] and then
    [indexers.indexer] through [get_prop] and maps [mapToIndexer] over
    it with [call_map]; [mapToIndexer] reads [caps.categories.category]
    and calls [parseCategories], whose callbacks push [parseInt]
    results; every TypeError of a property read, of a call of [map] on
    a non-array, or of ToString aborts the whole operation as a
    [Throw] of [res].

    Theorems, by group (claim ids in brackets):
    - Jackett: end-to-end correctness of [get] against any transport
      and parser [C1]; the service-error path [C3]; the record built
      for an entry [C5]; all-or-nothing mapping with the first failing
      entry's exception [C8]; the TypeErrors with one indexer [C9], no
      indexer [C10], an indexer with no categories [C14], and a
      response with neither indexers nor a truthy error [C17]; on every
      response as fast-xml-parser lays it out, success exactly with two
      or more indexers [C16]; exactly one request, to the spec's
      discovery URL, and propagation of its rejection [C13]; every
      returned record has the promised shape [C15]; on a truthy
      [error] the outcome is the service [Error] with ToString of its
      [description], or the exception of that conversion, never a list
      [C19].
    - Urls: the discovery URL reads back as the torznab path and
      exactly the parameters [apikey], [t] and [configured] [C22]; an
      endpoint reads back as the base's segments, the torznab path and
      the segments of the identifier [C23]; an API key with [&] adds
      parameters [C24].
    - Errors: every rejection of [get] is the request's own, the
      service [Error] on a truthy [error], or a TypeError [C25].
    - Documents: on the text of an [indexers] document, through any
      parser keeping the promise, [get] returns the spec's records with
      two or more indexers and the TypeErrors with one or none [C20];
      on the text of an [error] element it throws the service [Error]
      [C21].
    - Categories: refinement of the spec's flattening [C2], also for
      every tree as fast-xml-parser lays it out [C4]; order [C6] and
      count [C7] of the result; the TypeError on a missing category
      [C11]; NaN for a non-numeric identifier [C12]; equivalence of
      the stateful push loop with a stateless reference on every
      input [C18].
    - ParseInt and JsNumber carry the lemmas on the built-ins that
      the theorems above use: every result of [parseInt] is NaN, an
      infinity or an integral double ([parse_int_string_wf], behind
      [C15]), and a non-numeric identifier reads as NaN
      ([parse_int_string_nan], behind [C12]).  Facts of the built-ins
      alone are not claims of this development.

    Bounds and fuel: [digits_aux] runs with fuel one more than the bit
    length of the number, which exceeds its decimal digit count;
    Number::toString's search over significant digits runs at most as
    many rounds as the number has digits and falls back to the number
    itself, which is a candidate at the last round.  The model parser of [XmlParse] runs
    with the length of its input as fuel, more than the elements and
    child lists it reads ([xml_size_print]).  No other definition uses
    fuel; [run] and [requests] recurse on the
    structure of an [Async] program.

    Not modelled: the HTTP transport (axios) is an external
    collaborator, given as an interface ([Async]); fast-xml-parser is
    given by its promise ([XmlParserLaws]) on documents without
    entities, mixed content or text next to attributes, with the
    conversion of text left abstract, and the spec side also
    describes its output directly ([encode_categories],
    [encode_response]); Promise scheduling is not modelled beyond the
    single await of [get]; non-integral numbers never reach the code's
    arithmetic and are outside [JsNumber]; strings are sequences of
    8-bit code units (the Latin-1 part of UTF-16), so [parseInt]'s
    white space is the Latin-1 part of ECMA-262's; how [Config.jackett]
    is loaded is outside [src/].  The text-node layout of
    fast-xml-parser ([#text], text parsed as numbers or booleans)
    needs no decoder of its own: the program reads only attributes
    ([id], [description]) and container elements ([error],
    [indexers], [indexer], [caps], [categories], [category],
    [subcat]), and copies [title] whatever value it holds, which every
    theorem quantifies over ([entry_title] is any [jsval]).

    What remains outside the development, and why: the source of
    fast-xml-parser and of axios is not part of the repository, and
    the spec treats both as collaborators (sec. 1), so the parser is
    given only by the layout the client reads ([XmlParserLaws], with
    a model instance) and the transport by its interface; how the
    library converts element text, white space between elements, the
    XML declaration and entity references are its own behaviour, on
    which no theorem depends ([title] is copied whatever it holds).
    Strings of 16-bit code units would change every string of the
    development for the white space of [parseInt] beyond Latin-1 alone,
    which Jackett's numeric identifiers never hold.  The URL reader of
    [Urls] splits raw path segments and does not resolve [.] and [..]
    segments. *)

From Stdlib Require Import ZArith NArith Lia.
From stdpp Require Import base list strings.

Declare Scope js_scope.
Delimit Scope js_scope with js.

(** ** Exceptions *)

(** The base of a property read that throws. *)
Inductive nullish := NUndefined | NNull.

(** Why the engine throws a TypeError in this program. *)
Inductive type_error :=
| CannotReadProperty (base : nullish) (key : string)
| NotAFunction (callee : string)
| CannotConvertToPrimitive.

(** The exceptions of the program: the engine's TypeErrors, the
    [Error] thrown by [get], and the rejection of the HTTP request. *)
Inductive exn :=
| TypeError (reason : type_error)
| Error (message : string)
| RequestError (message : string).

#[export] Instance nullish_eq_dec : EqDecision nullish.
Proof. solve_decision. Defined.
#[export] Instance type_error_eq_dec : EqDecision type_error.
Proof. solve_decision. Defined.
#[export] Instance exn_eq_dec : EqDecision exn.
Proof. solve_decision. Defined.

(** ** Completions: a value or a thrown exception *)

Inductive res (A : Type) : Type :=
| Ok (a : A)
| Throw (e : exn).
Arguments Ok {A} a.
Arguments Throw {A} e.

Definition bind {A B} (r : res A) (f : A -> res B) : res B :=
  match r with
  | Ok a => f a
  | Throw e => Throw e
  end.

Notation "x <- c ;; k" := (bind c (fun x => k))
  (at level 100, c at next level, right associativity) : js_scope.

Local Open Scope js_scope.

(** [Array.prototype.map] with a callback that may throw: the callback
    runs on the elements from left to right and the first exception
    aborts the whole call. *)
Fixpoint js_map {A B} (f : A -> res B) (l : list A) : res (list B) :=
  match l with
  | [] => Ok []
  | x :: xs => y <- f x ;; ys <- js_map f xs ;; Ok (y :: ys)
  end.

(** ** Local mutable state: [St S A] runs from a state and returns or
    throws.  The code of [parseCategories] pushes into a local array
    from inside callbacks, which is this monad with [S := list _]. *)

Definition St (S A : Type) : Type := S -> res (A * S).

Definition st_ret {S A} (a : A) : St S A := fun s => Ok (a, s).
Definition st_bind {S A B} (m : St S A) (f : A -> St S B) : St S B :=
  fun s => match m s with
           | Ok (a, s') => f a s'
           | Throw e => Throw e
           end.
Definition st_lift {S A} (r : res A) : St S A :=
  fun s => match r with
           | Ok a => Ok (a, s)
           | Throw e => Throw e
           end.

Notation "x <-- c ;; k" := (st_bind c (fun x => k))
  (at level 100, c at next level, right associativity) : js_scope.
Notation "c ;;; k" := (st_bind c (fun _ => k))
  (at level 100, right associativity) : js_scope.

(** [arr.push(x)] on the array held in the state. *)
Definition push {X} (x : X) : St (list X) unit := fun s => Ok (tt, s ++ [x]).

(** [arr.map(cb)] whose callback only acts on the state. *)
Fixpoint st_map {S A B} (f : A -> St S B) (l : list A) : St S (list B) :=
  match l with
  | [] => st_ret []
  | x :: xs => y <-- f x ;; ys <-- st_map f xs ;; st_ret (y :: ys)
  end.

(** ** Shared lemmas *)

Create HintDb js.
Create Rewrite HintDb js_rw.

Lemma bind_Ok {A B} (r : res A) (f : A -> res B) (b : B) :
  bind r f = Ok b <-> exists a, r = Ok a /\ f a = Ok b.
Proof. destruct r; simpl; split; intros H; [eauto|naive_solver|done|naive_solver]. Qed.

(** Splits a hypothesis [x1 <- c1 ;; ... ;; k = Ok b] into the
    successful steps. *)
Ltac decompose_bind H :=
  repeat match type of H with
         | bind _ _ = Ok _ => apply bind_Ok in H as (? & ? & H)
         end.

Lemma js_map_Ok_iff {A B} (f : A -> res B) (l : list A) (l' : list B) :
  js_map f l = Ok l' <-> Forall2 (fun x y => f x = Ok y) l l'.
Proof.
  revert l'; induction l as [|x xs IH]; intros l'; simpl.
  - split; [intros [= <-]; constructor | inversion 1; done].
  - rewrite bind_Ok. setoid_rewrite bind_Ok. split.
    + intros (y & Hy & ys & Hys & [= <-]). constructor; [done|]. by apply IH.
    + inversion 1; subst. eexists; split; [done|]. eexists; split; [by apply IH|done].
Qed.

Lemma js_map_length {A B} (f : A -> res B) l l' :
  js_map f l = Ok l' -> length l' = length l.
Proof. rewrite js_map_Ok_iff. intros H. symmetry. by eapply Forall2_length. Qed.

(** Every result of a successful map has the property every result of
    the callback has. *)
Lemma js_map_Forall {A B} (f : A -> res B) (P : B -> Prop) (l : list A) (l' : list B) :
  (forall x y, f x = Ok y -> P y) -> js_map f l = Ok l' -> Forall P l'.
Proof.
  intros Hf Hl%js_map_Ok_iff. induction Hl; constructor; eauto.
Qed.

(** The first element on which the callback throws decides the
    exception of the whole map. *)
Lemma js_map_app_Throw {A B} (f : A -> res B) (l1 l2 : list A) x e ys :
  js_map f l1 = Ok ys -> f x = Throw e -> js_map f (l1 ++ x :: l2) = Throw e.
Proof.
  revert ys; induction l1 as [|y l1 IH]; intros ys H Hx; simpl in *.
  - by rewrite Hx.
  - destruct (f y); simpl in *; [|done].
    destruct (js_map f l1) eqn:E; simpl in *; [|done].
    by erewrite IH.
Qed.

Lemma js_map_Throw_inv {A B} (f : A -> res B) (l : list A) e :
  js_map f l = Throw e ->
  exists l1 x l2 ys, l = l1 ++ x :: l2 /\ js_map f l1 = Ok ys /\ f x = Throw e.
Proof.
  induction l as [|x xs IH]; simpl; [done|].
  destruct (f x) as [y|e'] eqn:Hx; simpl; intros H.
  - destruct (js_map f xs) eqn:E; simpl in H; [done|]. injection H as ->.
    destruct (IH eq_refl) as (l1 & z & l2 & ys & -> & H1 & H2).
    exists (x :: l1), z, l2, (y :: ys). simpl. rewrite Hx, H1. done.
  - injection H as ->. exists [], x, xs, []. done.
Qed.

(** Running [st_map] only threads the state through the callbacks. *)
Lemma st_map_cons {S A B} (f : A -> St S B) x xs s :
  st_map f (x :: xs) s =
  match f x s with
  | Ok (y, s') => match st_map f xs s' with
                  | Ok (ys, s'') => Ok (y :: ys, s'')
                  | Throw e => Throw e
                  end
  | Throw e => Throw e
  end.
Proof.
  unfold st_map at 1; fold (@st_map S A B). unfold st_bind, st_ret.
  destruct (f x s) as [[y s']|e]; [|done].
  destruct (st_map f xs s') as [[ys s'']|e]; done.
Qed.

#[export] Hint Rewrite @st_map_cons : js_rw.
#[export] Hint Resolve js_map_length : js.

(** ** Strings as lists of code units *)

Lemma append_cons (c : Ascii.ascii) (s t : string) : String c s +:+ t = String c (s +:+ t).
Proof. reflexivity. Qed.

Lemma append_empty_r (s : string) : s +:+ "" = s.
Proof.
  induction s as [|c s IH]; [reflexivity|].
  change (String c (s +:+ "") = String c s). by rewrite IH.
Qed.

(** A loop whose callback appends [g b] to the array for the element
    that stands for [b] appends all the blocks, in order. *)
Lemma st_map_append {A B X} (f : A -> St (list X) unit) (g : B -> list X)
    (l : list A) (bs : list B) (acc : list X) :
  Forall2 (fun a b => forall acc, f a acc = Ok (tt, acc ++ g b)) l bs ->
  exists us, st_map f l acc = Ok (us, acc ++ concat (map g bs)).
Proof.
  intros H. revert acc. induction H as [|a b l bs Hab _ IH]; intros acc.
  - exists []. simpl. by rewrite app_nil_r.
  - rewrite st_map_cons, Hab. destruct (IH (acc ++ g b)) as [us ->].
    exists (tt :: us). simpl. by rewrite app_assoc.
Qed.

Lemma concat_map_singleton {A B} (f : A -> B) (l : list A) :
  concat (map (fun x => [f x]) l) = map f l.
Proof. induction l as [|x l IH]; simpl; [done|by rewrite IH]. Qed.

(** The first callback that throws decides the exception of the loop. *)
Lemma st_map_app_Throw {S A B} (f : A -> St S B) (l1 l2 : list A) (x : A) s ys s' e :
  st_map f l1 s = Ok (ys, s') -> f x s' = Throw e -> st_map f (l1 ++ x :: l2) s = Throw e.
Proof.
  revert s ys; induction l1 as [|y l1 IH]; intros s ys H Hx; simpl app.
  - simpl in H. injection H as <- <-. by rewrite st_map_cons, Hx.
  - rewrite st_map_cons in H |- *. destruct (f y s) as [[z s1]|]; [|done].
    destruct (st_map f l1 s1) as [[zs s2]|] eqn:E; [|done].
    injection H as <- <-. by rewrite (IH s1 zs E Hx).
Qed.

(** A pointwise relation strengthened by a hypothesis on every left
    element: the shape of the nested induction steps. *)
Lemma Forall2_Forall_impl {A B} (P Q : A -> B -> Prop) (R : A -> Prop) l k :
  Forall R l -> Forall2 P l k -> (forall x y, R x -> P x y -> Q x y) -> Forall2 Q l k.
Proof. intros HR HP HPQ. induction HP; inversion HR; constructor; eauto. Qed.

(** [js_map] of callbacks that agree on related elements. *)
Lemma js_map_Forall2_eq {A A' B} (R : A -> A' -> Prop) (f : A -> res B) (g : A' -> res B) l1 l2 :
  Forall2 R l1 l2 -> (forall a b, R a b -> f a = g b) -> js_map f l1 = js_map g l2.
Proof. intros Hl Hfg. induction Hl as [|x y ? ? Hxy _ IH]; simpl; [done|]. by rewrite (Hfg x y Hxy), IH. Qed.

(** [mapM] of functions that agree on related elements. *)
Lemma mapM_Forall2_eq {A A' B} (R : A -> A' -> Prop) (f : A -> option B) (g : A' -> option B) l1 l2 :
  Forall2 R l1 l2 -> (forall a b, R a b -> f a = g b) -> mapM f l1 = mapM g l2.
Proof. intros Hl Hfg. induction Hl as [|x y ? ? Hxy _ IH]; simpl; [done|]. by rewrite (Hfg x y Hxy), IH. Qed.

Lemma js_map_Forall2 {A B C} (f : A -> res B) (g : C -> B) (l : list A) (cs : list C) :
  Forall2 (fun x c => f x = Ok (g c)) l cs -> js_map f l = Ok (map g cs).
Proof.
  intros H. apply js_map_Ok_iff. apply Forall2_fmap_r.
  eapply Forall2_impl; [done|]. by intros.
Qed.

(** A loop whose callback appends the block [g x] (or throws what [g x]
    throws) computes the concatenation of the blocks, or the first
    exception: the push loop is [js_map] followed by [concat]. *)
Lemma st_map_blocks {A X} (f : A -> St (list X) unit) (g : A -> res (list X))
    (l : list A) (acc : list X) :
  (forall x acc, f x acc = match g x with
                           | Ok b => Ok (tt, acc ++ b)
                           | Throw e => Throw e
                           end) ->
  match st_map f l acc with
  | Ok (_, acc') => Ok acc'
  | Throw e => Throw e
  end =
  match js_map g l with
  | Ok bs => Ok (acc ++ concat bs)
  | Throw e => Throw e
  end.
Proof.
  intros Hf. revert acc; induction l as [|x l IH]; intros acc.
  - simpl. by rewrite app_nil_r.
  - autorewrite with js_rw. rewrite Hf. cbn [js_map]. destruct (g x) as [b|e]; simpl; [|done].
    specialize (IH (acc ++ b)).
    destruct (st_map f l (acc ++ b)) as [[us acc']|e];
      destruct (js_map g l) as [bs|e']; simpl in *; try congruence.
    injection IH as ->. by rewrite app_assoc.
Qed.

Lemma js_map_singleton {A B} (f : A -> res B) (l : list A) :
  js_map (fun x => y <- f x ;; Ok [y]) l = (ys <- js_map f l ;; Ok (map (fun y => [y]) ys)).
Proof.
  induction l as [|x l IH]; [done|]. simpl. rewrite IH.
  destruct (f x); simpl; [|done]. by destruct (js_map f l).
Qed.
