(* ===== verification/JsNumber.v ===== *)
(** * JavaScript numbers, as far as the Jackett client produces them

    [parseInt] returns NaN, an infinity or an integral double (−0
    included); these are the only numbers the code computes.  This file
    holds the type [number] of these values, the rounding of a
    mathematical integer to the nearest double ([round_double], ties
    to even, overflow to an infinity), decimal printing of naturals
    ([show_N]) and Number::toString ([number_to_string]) on integral
    doubles, which chooses the shortest decimal significand that still
    rounds to the number (ECMA-262 Number::toString, with the
    closest-value choice of its note 2 that engines implement), in
    plain digits below 10^21 and in exponent notation from 10^21 on.
    The program prints a number only in ToString of a numeric
    [entry.id] or description; the lemmas here are the ones its
    theorems use. *)

From Stdlib Require Import ZArith NArith Lia Ascii.
From stdpp Require Import base list strings.
From S2P Require Import Prelude.

Local Open Scope N_scope.

(** A number of the program: NaN, an infinity, or an integral double
    given by its sign and magnitude ([Finite true 0] is −0). *)
Inductive number :=
| NaN
| Infinity (neg : bool)
| Finite (neg : bool) (m : N).

#[export] Instance number_eq_dec : EqDecision number.
Proof. solve_decision. Defined.

(** ** Rounding to the nearest double *)

(** [round_double m] is the magnitude of the double nearest to [m]
    (ties to even significand), or [None] when it overflows: a double
    has a 53-bit significand and magnitudes below 2^1024. *)
Definition round_double (m : N) : option N :=
  if m <? 2 ^ 53 then Some m
  else
    let s := N.log2 m - 52 in
    let q := N.shiftr m s in
    let r := m mod 2 ^ s in
    let h := 2 ^ (s - 1) in
    let q' := if (h <? r) || ((r =? h) && N.odd q) then q + 1 else q in
    let v := N.shiftl q' s in
    if v <? 2 ^ 1024 then Some v else None.

(** The magnitudes of the integral doubles. *)
Definition is_double (m : N) : bool :=
  (m <? 2 ^ 53) || ((m mod 2 ^ (N.log2 m - 52) =? 0) && (m <? 2 ^ 1024)).

(** [𝔽(±v)]: the double of a signed mathematical integer. *)
Definition of_int (neg : bool) (v : N) : number :=
  match round_double v with
  | Some m => Finite neg m
  | None => Infinity neg
  end.

(** The numbers the model may hold: an integral double or NaN or an
    infinity. *)
Definition number_wf (x : number) : bool :=
  match x with
  | Finite _ m => is_double m
  | _ => true
  end.

(** ** Decimal printing of naturals *)

Definition digit_char (d : N) : ascii := Ascii.ascii_of_N (48 + d).

(** The decimal digits of [n], produced from the least significant
    one in front of [acc]; [fuel] bounds their number. *)
Fixpoint digits_aux (fuel : nat) (n : N) (acc : list N) : list N :=
  match fuel with
  | O => acc
  | S f =>
      let acc' := n mod 10 :: acc in
      if n <? 10 then acc' else digits_aux f (n / 10) acc'
  end.

(** The bit length of [n] bounds its number of decimal digits. *)
Definition decimal_digits (n : N) : list N := digits_aux (S (N.size_nat n)) n [].

Definition show_N (n : N) : string :=
  String.string_of_list_ascii (map digit_char (decimal_digits n)).

(** ** Number::toString on integral doubles *)

(** Among the multiples of [10^(n-k)] next to [m] (the candidates with
    [k] significant digits), the one that rounds back to [m] and is
    closest to it, the even significand on a tie. *)
Definition candidate (m p : N) : option N :=
  let lo := (m / p) * p in
  let hi := lo + p in
  let ok_lo := bool_decide (round_double lo = Some m) in
  let ok_hi := bool_decide (round_double hi = Some m) in
  if ok_lo && ok_hi then
    if m - lo <? hi - m then Some lo
    else if hi - m <? m - lo then Some hi
    else if N.even (lo / p) then Some lo else Some hi
  else if ok_lo then Some lo
  else if ok_hi then Some hi
  else None.

(** Try [k = 1, 2, ...] significant digits; [m] has [n] digits. *)
Fixpoint shortest_aux (fuel : nat) (k n m : N) : N :=
  match fuel with
  | O => m
  | S f =>
      match candidate m (10 ^ (n - k)) with
      | Some c => c
      | None => shortest_aux f (k + 1) n m
      end
  end.

Definition shortest (m : N) : N :=
  let n := N.of_nat (String.length (show_N m)) in
  shortest_aux (N.to_nat n) 1 n m.

Fixpoint drop_trailing_zeros (l : list ascii) : list ascii :=
  match l with
  | [] => []
  | c :: l' =>
      match drop_trailing_zeros l' with
      | [] => if Ascii.eqb c "0"%char then [] else [c]
      | l'' => c :: l''
      end
  end.

(** Steps 6 to 10 of Number::toString for an integral value [c]: plain
    digits up to 21 of them, exponent notation beyond. *)
Definition format_integral (c : N) : string :=
  let ds := show_N c in
  let n := String.length ds in
  if (n <=? 21)%nat then ds
  else
    match drop_trailing_zeros (String.list_ascii_of_string ds) with
    | d :: rest =>
        String d ((if rest is [] then "" else "." +:+ String.string_of_list_ascii rest)
                  +:+ "e+" +:+ show_N (N.of_nat (n - 1)))
    | [] => ds
    end.

Definition number_to_string (x : number) : string :=
  match x with
  | NaN => "NaN"
  | Infinity false => "Infinity"
  | Infinity true => "-Infinity"
  | Finite _ 0 => "0"
  | Finite neg m => (if neg then "-" else "") +:+ format_integral (shortest m)
  end.

(** The value of a digit list in a radix, most significant first. *)
Definition digits_value (radix : N) (ds : list N) : N :=
  fold_left (fun acc d => acc * radix + d) ds 0.

(** ** Lemmas *)

Lemma round_double_small (m : N) : m < 2 ^ 53 -> round_double m = Some m.
Proof. intros H. unfold round_double. by rewrite (proj2 (N.ltb_lt _ _) H). Qed.

Lemma of_int_small (neg : bool) (v : N) : v < 2 ^ 53 -> of_int neg v = Finite neg v.
Proof. intros H. unfold of_int. by rewrite round_double_small. Qed.

#[export] Hint Resolve round_double_small of_int_small : js.

(** ** Rounding *)

(** A magnitude of 2^53 or more keeps its 53 leading bits after the
    shift by [log2 v - 52]. *)
Lemma large_magnitude (v : N) :
  2 ^ 53 <= v ->
  1 <= N.log2 v - 52 /\ 2 ^ 52 <= v / 2 ^ (N.log2 v - 52) < 2 ^ 53.
Proof.
  intros Hv.
  assert (HL : 53 <= N.log2 v).
  { rewrite <-(N.log2_pow2 53) by lia. by apply N.log2_le_mono. }
  destruct (N.log2_spec v) as [Hlo Hhi]; [lia|].
  replace (N.log2 v) with (52 + (N.log2 v - 52)) in Hlo, Hhi by lia.
  rewrite N.pow_add_r in Hlo. rewrite <-N.add_succ_l, N.pow_add_r in Hhi.
  split; [lia|]. split.
  - apply N.div_le_lower_bound; [apply N.pow_nonzero; lia|lia].
  - apply N.Div0.div_lt_upper_bound. lia.
Qed.

Lemma round_double_large (v w : N) :
  2 ^ 53 <= v -> round_double v = Some w ->
  exists q, 2 ^ 52 <= q <= 2 ^ 53 /\ w = q * 2 ^ (N.log2 v - 52) /\ w < 2 ^ 1024.
Proof.
  intros Hv Hr. destruct (large_magnitude v Hv) as [Hs Hq].
  unfold round_double in Hr. cbv zeta in Hr.
  rewrite N.shiftr_div_pow2, N.shiftl_mul_pow2 in Hr.
  destruct (N.ltb_spec v (2 ^ 53)); [lia|].
  set (s := N.log2 v - 52) in *. set (q := v / 2 ^ s) in *.
  match type of Hr with
  | context [if ?b then q + 1 else q] => exists (if b then q + 1 else q); destruct b
  end;
  (match type of Hr with
   | context [if ?c then _ else None] => destruct c eqn:Hc; [|done]
   end);
  injection Hr as <-; apply N.ltb_lt in Hc; repeat split; lia.
Qed.

(** Every rounded magnitude is an integral double. *)
Lemma round_double_is_double (v w : N) : round_double v = Some w -> is_double w = true.
Proof.
  intros Hr. destruct (N.ltb_spec v (2 ^ 53)) as [Hv|Hv].
  - rewrite round_double_small in Hr by done. injection Hr as <-.
    unfold is_double. by rewrite (proj2 (N.ltb_lt _ _) Hv).
  - destruct (round_double_large v w Hv Hr) as (q & Hq & -> & Hw).
    destruct (large_magnitude v Hv) as [Hs _].
    unfold is_double. apply orb_true_iff; right.
    apply andb_true_iff; split; [|by apply N.ltb_lt].
    apply N.eqb_eq. set (s := N.log2 v - 52) in *.
    destruct (N.eq_dec q (2 ^ 53)) as [->|Hne].
    + rewrite <-N.pow_add_r, N.log2_pow2 by lia.
      replace (2 ^ (53 + s)) with (2 ^ 52 * 2 ^ (53 + s - 52))
        by (rewrite <-N.pow_add_r; f_equal; lia).
      apply N.Div0.mod_mul.
    + rewrite N.log2_mul_pow2, (N.log2_unique q 52) by lia.
      replace (s + 52 - 52) with s by lia. apply N.Div0.mod_mul.
Qed.

(** An integral double rounds to itself. *)
Lemma is_double_round (m : N) : is_double m = true -> round_double m = Some m.
Proof.
  unfold is_double. intros H.
  destruct (N.ltb_spec m (2 ^ 53)) as [Hm|Hm]; [by apply round_double_small|].
  simpl in H. apply andb_true_iff in H as [Hmod Hlt].
  apply N.eqb_eq in Hmod. apply N.ltb_lt in Hlt.
  destruct (large_magnitude m Hm) as [Hs _].
  unfold round_double. cbv zeta.
  destruct (N.ltb_spec m (2 ^ 53)); [lia|].
  rewrite Hmod, N.shiftr_div_pow2, N.shiftl_mul_pow2.
  set (s := N.log2 m - 52) in *.
  assert (0 < 2 ^ (s - 1)) by (apply N.neq_0_lt_0, N.pow_nonzero; lia).
  destruct (N.ltb_spec (2 ^ (s - 1)) 0); [lia|].
  destruct (N.eqb_spec 0 (2 ^ (s - 1))); [lia|]. simpl.
  apply N.Div0.div_exact in Hmod. rewrite N.mul_comm, <-Hmod.
  by rewrite (proj2 (N.ltb_lt _ _) Hlt).
Qed.

#[export] Hint Resolve round_double_is_double is_double_round : js.
