(* ===== verification/JsValue.v ===== *)
(** * JavaScript values produced by fast-xml-parser

    [jsval] holds what [parse(response.data, parseOpts)] returns and
    what the code of [src/jackett.ts] reads from it: undefined, null,
    booleans, numbers, strings, arrays and plain objects (own data
    properties, as an association list in insertion order; parsed
    objects have no functions).  The operations are the ones of the
    language the code uses on them: truthiness of [if (x)] and [||],
    [Array.isArray], the property read [x.k] (a TypeError on undefined
    and null), the method call [x.map(cb)], and ToString (string
    concatenation, template literals and [parseInt]'s argument).

    Property reads return own properties only: the program reads the
    keys [error], [description], [indexers], [indexer], [caps],
    [categories], [category], [id], [subcat] and [title], none of which
    is a property of Object.prototype, Array.prototype or
    String.prototype. *)

From Stdlib Require Import ZArith NArith Lia Ascii.
From stdpp Require Import base list strings.
From S2P Require Import Prelude JsNumber.

Local Open Scope js_scope.

#[local] Set Warnings "-register-all".
Inductive jsval :=
| JUndefined
| JNull
| JBool (b : bool)
| JNum (n : number)
| JStr (s : string)
| JArr (elems : list jsval)
| JObj (props : list (string * jsval)).

(** Induction with a hypothesis for every element of an array and
    every property value of an object. *)
Definition jsval_ind' (P : jsval -> Prop)
  (fU : P JUndefined) (fN : P JNull) (fB : forall b, P (JBool b))
  (fNum : forall n, P (JNum n)) (fS : forall s, P (JStr s))
  (fA : forall l, Forall P l -> P (JArr l))
  (fO : forall ps, Forall (fun kv => P kv.2) ps -> P (JObj ps)) :
  forall v, P v :=
  fix F v :=
    match v with
    | JUndefined => fU
    | JNull => fN
    | JBool b => fB b
    | JNum n => fNum n
    | JStr s => fS s
    | JArr l =>
        fA l ((fix G l : Forall P l :=
                 match l with
                 | [] => List.Forall_nil _
                 | x :: xs => List.Forall_cons _ x xs (F x) (G xs)
                 end) l)
    | JObj ps =>
        fO ps ((fix G ps : Forall (fun kv => P kv.2) ps :=
                  match ps with
                  | [] => List.Forall_nil _
                  | kv :: r => List.Forall_cons _ kv r (F kv.2) (G r)
                  end) ps)
    end.

Fixpoint jsval_eqb (x y : jsval) : bool :=
  match x, y with
  | JUndefined, JUndefined | JNull, JNull => true
  | JBool a, JBool b => Bool.eqb a b
  | JNum a, JNum b => bool_decide (a = b)
  | JStr a, JStr b => String.eqb a b
  | JArr l1, JArr l2 =>
      (fix go l1 l2 :=
         match l1, l2 with
         | [], [] => true
         | a :: r1, b :: r2 => jsval_eqb a b && go r1 r2
         | _, _ => false
         end) l1 l2
  | JObj p1, JObj p2 =>
      (fix go p1 p2 :=
         match p1, p2 with
         | [], [] => true
         | (k1, a) :: r1, (k2, b) :: r2 => String.eqb k1 k2 && jsval_eqb a b && go r1 r2
         | _, _ => false
         end) p1 p2
  | _, _ => false
  end.

(** ** Property access *)

(** The first property named [k]. *)
Fixpoint lookup_prop (k : string) (ps : list (string * jsval)) : option jsval :=
  match ps with
  | [] => None
  | (k', v) :: r => if String.eqb k k' then Some v else lookup_prop k r
  end.

(** [v.key] *)
Definition get_prop (v : jsval) (key : string) : res jsval :=
  match v with
  | JUndefined => Throw (TypeError (CannotReadProperty NUndefined key))
  | JNull => Throw (TypeError (CannotReadProperty NNull key))
  | JObj ps => Ok (default JUndefined (lookup_prop key ps))
  | _ => Ok JUndefined
  end.

(** ToBoolean, the test of [if (v)] and of [v || w]. *)
Definition truthy (v : jsval) : bool :=
  match v with
  | JUndefined | JNull => false
  | JBool b => b
  | JNum NaN => false
  | JNum (Finite _ m) => negb (m =? 0)%N
  | JNum (Infinity _) => true
  | JStr s => negb (String.eqb s "")
  | JArr _ | JObj _ => true
  end.

(** [Array.isArray(v)] *)
Definition is_array (v : jsval) : bool :=
  match v with JArr _ => true | _ => false end.

(** [callee(cb)] where [callee] is the expression [v.map]: arrays run
    [Array.prototype.map]; reading [map] of undefined or null throws;
    on any other value [v.map] is not callable (parsed data holds no
    functions). *)
Definition call_map {B} (callee : string) (v : jsval) (f : jsval -> res B) : res (list B) :=
  match v with
  | JArr l => js_map f l
  | JUndefined => Throw (TypeError (CannotReadProperty NUndefined "map"))
  | JNull => Throw (TypeError (CannotReadProperty NNull "map"))
  | _ => Throw (TypeError (NotAFunction callee))
  end.

(** ** ToString *)

(** ToString through ToPrimitive.  An array prints as
    [Array.prototype.join] with [","], undefined and null elements
    printing empty.  A plain object prints "[object Object]" unless it
    has an own [toString] property: that one is not callable, the
    inherited [valueOf] returns the object itself, and ToPrimitive
    throws. *)
Fixpoint to_string (v : jsval) : res string :=
  match v with
  | JUndefined => Ok "undefined"
  | JNull => Ok "null"
  | JBool b => Ok (if b then "true" else "false")
  | JNum n => Ok (number_to_string n)
  | JStr s => Ok s
  | JArr l =>
      (fix join (l : list jsval) : res string :=
         match l with
         | [] => Ok ""
         | x :: xs =>
             s <- (match x with
                   | JUndefined | JNull => Ok ""
                   | _ => to_string x
                   end) ;;
             match xs with
             | [] => Ok s
             | _ => t <- join xs ;; Ok (s +:+ "," +:+ t)
             end
         end) l
  | JObj ps =>
      match lookup_prop "toString" ps with
      | Some _ => Throw (TypeError CannotConvertToPrimitive)
      | None => Ok "[object Object]"
      end
  end.

(** The value of a nullish base. *)
Definition nullish_val (b : nullish) : jsval :=
  match b with NUndefined => JUndefined | NNull => JNull end.

(** ** Lemmas *)

Lemma jsval_eqb_eq (x y : jsval) : jsval_eqb x y = true <-> x = y.
Proof.
  revert y; induction x as [| |b|n|s|l IH|ps IH] using jsval_ind';
    intros [| |b'|n'|s'|l'|ps']; simpl; try (split; congruence).
  - rewrite Bool.eqb_true_iff. split; congruence.
  - rewrite bool_decide_eq_true. split; congruence.
  - rewrite String.eqb_eq. split; congruence.
  - revert l'; induction IH as [|x xs Hx _ IHl]; intros [|y ys]; try (split; congruence).
    rewrite andb_true_iff, Hx, IHl. split; [intros [-> [= ->]]|intros [= -> ->]]; done.
  - revert ps'; induction IH as [|[k x] xs Hx _ IHl]; intros [|[k' y] ys]; try (split; congruence).
    simpl in Hx. rewrite !andb_true_iff, String.eqb_eq, Hx, IHl.
    split; [intros [[-> ->] [= ->]]|intros [= -> -> ->]]; done.
Qed.

#[export] Instance jsval_eq_dec : EqDecision jsval.
Proof.
  intros x y. destruct (jsval_eqb x y) eqn:E.
  - left. by apply jsval_eqb_eq.
  - right. intros H%jsval_eqb_eq. congruence.
Defined.

Lemma get_prop_obj (ps : list (string * jsval)) (k : string) :
  get_prop (JObj ps) k = Ok (default JUndefined (lookup_prop k ps)).
Proof. reflexivity. Qed.

#[export] Hint Rewrite get_prop_obj : js_rw.

Lemma get_prop_nullish (b : nullish) (k : string) :
  get_prop (nullish_val b) k = Throw (TypeError (CannotReadProperty b k)).
Proof. by destruct b. Qed.

(** ToString of a parsed value either succeeds or throws the TypeError
    of ToPrimitive on an object with an own [toString]. *)
Lemma to_string_cases (v : jsval) :
  (exists s, to_string v = Ok s) \/ to_string v = Throw (TypeError CannotConvertToPrimitive).
Proof.
  induction v as [| | | | |l IH|ps IH] using jsval_ind'; simpl; eauto.
  - induction IH as [|x xs Hx _ IHl]; [eauto|].
    assert ((exists s, (match x with JUndefined | JNull => Ok "" | _ => to_string x end : res string)
                       = Ok s) \/
            (match x with JUndefined | JNull => Ok "" | _ => to_string x end : res string)
            = Throw (TypeError CannotConvertToPrimitive)) as [[s Hs]|Hs]
      by (destruct x; eauto).
    + rewrite Hs. simpl. destruct xs; [eauto|].
      destruct IHl as [[t Ht]| Ht]; rewrite Ht; simpl; eauto.
    + rewrite Hs. by right.
  - destruct (lookup_prop "toString" ps); eauto.
Qed.
