(* ===== verification/ParseInt.v ===== *)
(** * The global [parseInt] with no radix argument

    [Jackett.parseCategories] calls [parseInt(cat.id)] and
    [parseInt(subCat.id)] with one argument.  ECMA-262 (sec. 19.2.5):
    convert the argument with ToString, drop leading white space, read
    an optional sign, take radix 16 after a [0x]/[0X] prefix and radix
    10 otherwise, keep the longest prefix of digits of that radix;
    return NaN when it is empty, and otherwise the double nearest to
    the signed value ([-0] for a negative zero).  Engines compute the
    decimal value exactly, which is what [digits_value] does. *)

From Stdlib Require Import ZArith NArith Lia Ascii.
From stdpp Require Import base list strings.
From S2P Require Import Prelude JsNumber JsValue.

Local Open Scope js_scope.

(** WhiteSpace and LineTerminator among the code units below 256: TAB,
    LF, VT, FF, CR, SPACE and NO-BREAK SPACE. *)
Definition is_js_space (c : ascii) : bool :=
  let n := Ascii.N_of_ascii c in
  ((n =? 9) || (n =? 10) || (n =? 11) || (n =? 12) || (n =? 13)
   || (n =? 32) || (n =? 160))%N.

(** TrimString(S, start). *)
Fixpoint trim_start (s : string) : string :=
  match s with
  | String c r => if is_js_space c then trim_start r else s
  | EmptyString => EmptyString
  end.

(** The value of a code unit as a digit of a radix up to 36. *)
Definition digit_value (c : ascii) : option N :=
  let n := Ascii.N_of_ascii c in
  if ((48 <=? n) && (n <=? 57))%N then Some (n - 48)%N
  else if ((97 <=? n) && (n <=? 122))%N then Some (n - 87)%N
  else if ((65 <=? n) && (n <=? 90))%N then Some (n - 55)%N
  else None.

(** The longest prefix of radix-[radix] digits, as their values. *)
Fixpoint take_digits (radix : N) (s : string) : list N :=
  match s with
  | String c r =>
      match digit_value c with
      | Some d => if (d <? radix)%N then d :: take_digits radix r else []
      | None => []
      end
  | EmptyString => []
  end.

(** Steps 4 to 6: the sign. *)
Definition split_sign (s : string) : bool * string :=
  match s with
  | String c r =>
      if Ascii.eqb c "-"%char then (true, r)
      else if Ascii.eqb c "+"%char then (false, r)
      else (false, s)
  | EmptyString => (false, s)
  end.

(** Steps 8 to 10 with no radix argument: radix 16 after a [0x] or
    [0X] prefix, which is removed, and radix 10 otherwise. *)
Definition split_radix (s : string) : N * string :=
  match s with
  | String c0 (String cx r) =>
      if Ascii.eqb c0 "0"%char && (Ascii.eqb cx "x"%char || Ascii.eqb cx "X"%char)
      then (16%N, r) else (10%N, s)
  | _ => (10%N, s)
  end.

Definition parse_int_string (s : string) : number :=
  let '(neg, s2) := split_sign (trim_start s) in
  let '(radix, s3) := split_radix s2 in
  match take_digits radix s3 with
  | [] => NaN
  | ds => of_int neg (digits_value radix ds)
  end.

(** [parseInt(v)] *)
Definition parseInt (v : jsval) : res number :=
  s <- to_string v ;; Ok (parse_int_string s).

(** Whether a string cannot continue a decimal numeral. *)
Definition stops_decimal (t : string) : bool :=
  match t with
  | String c _ =>
      match digit_value c with
      | Some d => (10 <=? d)%N
      | None => true
      end
  | EmptyString => true
  end.

(** ** Properties of [parseInt] *)

(** Whatever the string, [parseInt] returns NaN, an infinity or an
    integral double. *)
Lemma parse_int_string_wf (s : string) : number_wf (parse_int_string s) = true.
Proof.
  unfold parse_int_string.
  destruct (split_sign (trim_start s)) as [neg s2].
  destruct (split_radix s2) as [radix s3].
  destruct (take_digits radix s3) as [|d ds]; [done|].
  unfold of_int. destruct (round_double _) as [w|] eqn:Hr; [|done].
  simpl. eauto with js.
Qed.

Lemma parseInt_wf (v : jsval) (n : number) : parseInt v = Ok n -> number_wf n = true.
Proof.
  unfold parseInt. destruct (to_string v); simpl; [|discriminate].
  intros [= <-]. apply parse_int_string_wf.
Qed.

Lemma eqb_zero_digit (c : ascii) : Ascii.eqb c "0"%char = true -> digit_value c = Some 0%N.
Proof. intros ->%Ascii.eqb_eq. reflexivity. Qed.

(** A string whose first character after white space is neither a
    sign nor a decimal digit reads as NaN. *)
Lemma parse_int_string_nan (s r : string) (c : ascii) :
  trim_start s = String c r ->
  stops_decimal (String c r) = true ->
  Ascii.eqb c "-"%char = false -> Ascii.eqb c "+"%char = false ->
  parse_int_string s = NaN.
Proof.
  intros Hs Hstop Hmin Hplus. unfold parse_int_string. rewrite Hs.
  cbn [split_sign]. rewrite Hmin, Hplus.
  assert (Hz : Ascii.eqb c "0"%char = false).
  { destruct (Ascii.eqb c "0"%char) eqn:E; [|done].
    simpl in Hstop. by rewrite (eqb_zero_digit c E) in Hstop. }
  assert (Hsr : split_radix (String c r) = (10%N, String c r))
    by (destruct r; simpl; [done|by rewrite Hz]).
  rewrite Hsr. simpl. simpl in Hstop.
  destruct (digit_value c) as [d|]; [|done].
  apply N.leb_le in Hstop. by destruct (N.ltb_spec d 10); [lia|].
Qed.
