(* ===== verification/JsEquiv.v ===== *)
(** * Parsed values up to the order of their properties

    The code reads a parsed object only through [x.k], which returns
    the first property named [k] ([get_prop]).  Two objects with the
    same first property of every name, up to this same relation, are
    then indistinguishable by the program: [jequiv] is this relation,
    declared as stdpp's [Equiv] of [jsval] (notation [≡]), an
    equivalence.  A reordering of the attributes and child elements
    of distinct names of an XML element, which leaves the parsed
    document unchanged as a document, gives [≡] values
    ([JObj_equiv_perm]).

    Completions are compared with [res_equiv]: the same exception, or
    results related by [≡].  The [Proper] instances state that the
    operations of [JsValue] and [ParseInt] respect [≡]; the components
    prove the same of [parseCategories], [mapToIndexer] and [get] with
    them, rewriting with [≡] where the goal allows it. *)

From Stdlib Require Import Setoid Morphisms.
From stdpp Require Import base list strings sets.
From S2P Require Import Prelude JsNumber JsValue ParseInt.

Local Open Scope js_scope.

(** ** The relation *)

#[local] Set Warnings "-register-all".
Inductive jequiv : jsval -> jsval -> Prop :=
| JUndefined_equiv : jequiv JUndefined JUndefined
| JNull_equiv : jequiv JNull JNull
| JBool_equiv b : jequiv (JBool b) (JBool b)
| JNum_equiv n : jequiv (JNum n) (JNum n)
| JStr_equiv s : jequiv (JStr s) (JStr s)
| JArr_equiv l1 l2 : Forall2 jequiv l1 l2 -> jequiv (JArr l1) (JArr l2)
| JObj_equiv ps qs :
    (forall k, option_Forall2 jequiv (lookup_prop k ps) (lookup_prop k qs)) ->
    jequiv (JObj ps) (JObj qs).

#[export] Instance jsval_equiv : Equiv jsval := jequiv.

(** Completions up to a relation on their results. *)
Inductive res_Forall2 {A B} (R : A -> B -> Prop) : res A -> res B -> Prop :=
| Ok_Forall2 a b : R a b -> res_Forall2 R (Ok a) (Ok b)
| Throw_Forall2 e : res_Forall2 R (Throw e) (Throw e).

#[export] Instance res_equiv `{Equiv A} : Equiv (res A) := res_Forall2 (≡).

(** ** Lemmas on [lookup_prop] *)

Lemma lookup_prop_Forall (P : jsval -> Prop) (k : string) (ps : list (string * jsval)) v :
  Forall (fun kv => P kv.2) ps -> lookup_prop k ps = Some v -> P v.
Proof.
  induction 1 as [|[k' w] ps Hw _ IH]; simpl; [discriminate|].
  destruct (String.eqb k k'); [by intros [= <-]|done].
Qed.

Lemma lookup_prop_elem_of (k : string) (ps : list (string * jsval)) v :
  NoDup ps.*1 -> lookup_prop k ps = Some v <-> (k, v) ∈ ps.
Proof.
  induction ps as [|[k' w] ps IH]; simpl; intros Hnd.
  { split; [discriminate|set_solver]. }
  apply NoDup_cons in Hnd as [Hk' Hnd].
  rewrite elem_of_cons, <-IH by done.
  destruct (String.eqb_spec k k') as [->|Hne].
  - split; [intros [= ->]; by left|].
    intros [[= ->]|Hin]; [done|]. destruct Hk'.
    apply list_elem_of_fmap. exists (k', v). split; [done|by apply IH].
  - split; [by right|]. intros [[= ? ?]|]; [congruence|done].
Qed.

(** Lookups agree on permuted property lists with distinct names. *)
Lemma lookup_prop_perm (k : string) (ps qs : list (string * jsval)) :
  NoDup ps.*1 -> ps ≡ₚ qs -> lookup_prop k ps = lookup_prop k qs.
Proof.
  intros Hnd Hp.
  assert (NoDup qs.*1) as Hnd' by (by rewrite <-Hp).
  destruct (lookup_prop k ps) as [v|] eqn:E.
  - symmetry. apply lookup_prop_elem_of; [done|]. rewrite <-Hp. by apply lookup_prop_elem_of.
  - destruct (lookup_prop k qs) as [v|] eqn:E'; [|done].
    apply lookup_prop_elem_of in E'; [|done]. rewrite <-Hp in E'.
    apply lookup_prop_elem_of in E'; [congruence|done].
Qed.

(** ** [≡] is an equivalence *)

Lemma jequiv_refl (v : jsval) : jequiv v v.
Proof.
  induction v as [| | | | |l IH|ps IH] using jsval_ind'; constructor.
  - by apply Forall_Forall2_diag.
  - intros k. destruct (lookup_prop k ps) eqn:E; constructor.
    by eapply (lookup_prop_Forall (fun v => jequiv v v)).
Qed.

Lemma jequiv_sym (x y : jsval) : jequiv x y -> jequiv y x.
Proof.
  revert y. induction x as [| | | | |l IH|ps IH] using jsval_ind';
    intros y Hxy; inversion Hxy as [| | | | |? l2 Hl|? qs Hk]; subst; constructor.
  - apply Forall2_flip. eapply Forall2_Forall_impl; [exact IH|exact Hl|]. simpl. auto.
  - intros k. specialize (Hk k).
    destruct (lookup_prop k ps) as [v|] eqn:E; inversion Hk; constructor.
    eapply (lookup_prop_Forall (fun v => forall w, jequiv v w -> jequiv w v)); eauto.
Qed.

Lemma jequiv_trans (x y z : jsval) : jequiv x y -> jequiv y z -> jequiv x z.
Proof.
  revert y z. induction x as [| | | | |l IH|ps IH] using jsval_ind';
    intros y z Hxy Hyz; inversion Hxy as [| | | | |? l2 Hl|? qs Hk]; subst;
    inversion Hyz as [| | | | |? l3 Hl'|? rs Hk']; subst; constructor.
  - clear Hxy Hyz. revert l3 Hl'. induction Hl as [|x y l l2 Hxy' Hl IHl]; intros l3 Hl';
      inversion Hl'; subst; inversion IH; subst; constructor; eauto.
  - intros k. specialize (Hk k). specialize (Hk' k).
    destruct (lookup_prop k ps) as [v|] eqn:E; inversion Hk as [v' w Hvw E1 E2|E1 E2];
      rewrite <-E2 in Hk'; inversion Hk'; constructor.
    eapply (lookup_prop_Forall (fun v => forall y z, jequiv v y -> jequiv y z -> jequiv v z)); eauto.
Qed.

#[export] Instance jsval_equivalence : Equivalence (≡@{jsval}).
Proof. split; [exact jequiv_refl|exact jequiv_sym|exact jequiv_trans]. Qed.

#[export] Instance res_equivalence `{Equiv A} : Equivalence (≡@{A}) -> Equivalence (≡@{res A}).
Proof.
  intros [Hr Hs Ht]. split.
  - intros [a|e]; constructor; done.
  - intros ?? []; constructor; by symmetry.
  - intros ??? [] Hyz; inversion Hyz; subst; constructor; by etrans.
Qed.

(** ** Objects up to reordering *)

(** Properties of distinct names in another order. *)
Lemma JObj_equiv_perm (ps qs : list (string * jsval)) :
  NoDup ps.*1 -> ps ≡ₚ qs -> JObj ps ≡ JObj qs.
Proof.
  intros Hnd Hp. constructor. intros k. rewrite (lookup_prop_perm k ps qs) by done. reflexivity.
Qed.

(** ** The operations respect [≡] *)

#[export] Instance get_prop_proper : Proper ((≡) ==> (=) ==> (≡)) get_prop.
Proof.
  intros x y Hxy k ? <-. inversion Hxy as [| | | | | |ps qs Hk]; subst; try reflexivity.
  simpl. specialize (Hk k). destruct Hk; constructor; [done|reflexivity].
Qed.

#[export] Instance truthy_proper : Proper ((≡) ==> (=)) truthy.
Proof. intros x y Hxy. by inversion Hxy. Qed.

#[export] Instance is_array_proper : Proper ((≡) ==> (=)) is_array.
Proof. intros x y Hxy. by inversion Hxy. Qed.

(** The [≡] values print alike, arrays element by element. *)
#[export] Instance to_string_proper : Proper ((≡) ==> (=)) to_string.
Proof.
  intros x. induction x as [| | | | |l IH|ps IH] using jsval_ind';
    intros y Hxy; inversion Hxy as [| | | | |? l2 Hl|? qs Hk]; subst; try done.
  - clear Hxy. induction Hl as [|x y l l2 Hxy Hl IHl]; [done|].
    inversion IH as [|? ? Hx IH']; subst.
    assert ((match x with JUndefined | JNull => Ok "" | _ => to_string x end : res string)
            = match y with JUndefined | JNull => Ok "" | _ => to_string y end) as Hhd
      by (inversion Hxy; subst; try done; by apply Hx).
    cbn [to_string]. rewrite Hhd.
    destruct Hl as [|x' y' l l2]; [done|].
    specialize (IHl IH'). cbn [to_string] in IHl. by rewrite IHl.
  - simpl. specialize (Hk "toString"). by inversion Hk.
Qed.

#[export] Instance parseInt_proper : Proper ((≡) ==> (=)) parseInt.
Proof. intros x y Hxy. unfold parseInt. by rewrite Hxy. Qed.

(** [bind] of [≡] completions and continuations. *)
Lemma bind_equiv `{Equiv A, Equiv B} (r1 r2 : res A) (f g : A -> res B) :
  r1 ≡ r2 -> (forall a b, a ≡ b -> f a ≡ g b) -> bind r1 f ≡ bind r2 g.
Proof. intros [a b Hab|e] Hfg; simpl; [by apply Hfg|constructor]. Qed.

(** [bind] of [≡] completions and of continuations that agree on [≡]
    arguments. *)
Lemma bind_equiv_eq `{Equiv A} {B} (r1 r2 : res A) (f g : A -> res B) :
  r1 ≡ r2 -> (forall a b, a ≡ b -> f a = g b) -> bind r1 f = bind r2 g.
Proof. intros [a b Hab|e] Hfg; simpl; [by apply Hfg|done]. Qed.

(** [Array.prototype.map] with callbacks that respect the relations. *)
Lemma js_map_equiv {A B} (R : A -> A -> Prop) (S : B -> B -> Prop) (f g : A -> res B) l1 l2 :
  Forall2 R l1 l2 -> (forall a b, R a b -> res_Forall2 S (f a) (g b)) ->
  res_Forall2 (Forall2 S) (js_map f l1) (js_map g l2).
Proof.
  intros Hl Hfg. induction Hl as [|x y l1 l2 Hxy _ IH]; simpl; [by repeat constructor|].
  destruct (Hfg x y Hxy) as [a b Hab|e]; [|constructor].
  destruct IH; constructor. by constructor.
Qed.

Lemma call_map_equiv {B} (S : B -> B -> Prop) (c : string) (v w : jsval) (f g : jsval -> res B) :
  v ≡ w -> (forall a b, a ≡ b -> res_Forall2 S (f a) (g b)) ->
  res_Forall2 (Forall2 S) (call_map c v f) (call_map c w g).
Proof.
  intros Hvw Hfg. inversion Hvw as [| | | | |l1 l2 Hl|]; subst; simpl; try constructor.
  by apply js_map_equiv with (R := (≡)).
Qed.

Lemma res_Forall2_list_equiv `{Equiv A} (r1 r2 : res (list A)) :
  res_Forall2 (Forall2 (≡)) r1 r2 -> r1 ≡ r2.
Proof. intros [l1 l2 Hl|e]; constructor. by apply list_equiv_Forall2. Qed.

(** A property read from [≡] objects, defaulting to undefined. *)
Lemma default_equiv (o1 o2 : option jsval) :
  option_Forall2 (≡) o1 o2 -> default JUndefined o1 ≡ default JUndefined o2.
Proof. intros [x y Hxy|]; [done|reflexivity]. Qed.

(** A completion [≡] to an exception is that exception. *)
Lemma res_equiv_Throw `{Equiv A} (r : res A) (e : exn) : r ≡ Throw e -> r = Throw e.
Proof. by inversion 1. Qed.
