(* ===== verification/Categories.v ===== *)
(** * [Jackett.parseCategories]: flattening the category tree

    The code model (lines 42 to 65 of [src/jackett.ts]): the argument
    is wrapped in an array unless it is one, a local [categories] array
    is filled by [push] from the callback of [categoryEntry.map], which
    pushes [parseInt(cat.id)] and then the identifiers of [cat.subcat]
    (an array of sub-categories, or a single one); the array is
    returned.  The local array is the state of the [St] monad.

    The specification: a category tree is a list of [RawCategory]
    (an identifier and the identifiers of its sub-categories), encoded
    by fast-xml-parser with a single child collapsed to an object;
    [decode_categories] reads such an encoding back, and
    [flatten_categories] is the list the code must return: each
    category's parsed identifier followed by its sub-categories'. *)

From Stdlib Require Import ZArith NArith Lia Ascii.
From stdpp Require Import base list strings.
From S2P Require Import Prelude JsNumber JsValue ParseInt JsEquiv.

Local Open Scope js_scope.

(** ** The code *)

(** [categories.push(parseInt(x.id))] *)
Definition push_id (x : jsval) : St (list number) unit :=
  id <-- st_lift (get_prop x "id") ;;
  n <-- st_lift (parseInt id) ;;
  push n.

(** The callback [(cat) => { ... }] of [categoryEntry.map].  The code
    reads [cat.subcat] three times; reads have no effect, so it is
    read once.  [Array.isArray(cat.subcat)] is the [JArr] case. *)
Definition category_cb (cat : jsval) : St (list number) unit :=
  push_id cat ;;;
  subcat <-- st_lift (get_prop cat "subcat") ;;
  if truthy subcat then
    match subcat with
    | JArr subs => st_map push_id subs ;;; st_ret tt
    | _ => push_id subcat
    end
  else st_ret tt.

(** [if (!Array.isArray(categoryEntry)) categoryEntry = [categoryEntry];] *)
Definition as_array (v : jsval) : list jsval :=
  match v with
  | JArr l => l
  | _ => [v]
  end.

(** [Jackett.parseCategories(category)] *)
Definition parseCategories (category : jsval) : res (list number) :=
  match st_map category_cb (as_array category) [] with
  | Ok (_, categories) => Ok categories
  | Throw e => Throw e
  end.

(** ** The specification *)

(** A category node of the torznab [caps] block. *)
Record RawCategory := {
  cat_id : string;
  cat_subcats : list string
}.

(** The identifier of a node [{id: "..."}]. *)
Definition node_id (v : jsval) : option string :=
  match v with
  | JObj ps =>
      match lookup_prop "id" ps with
      | Some (JStr s) => Some s
      | _ => None
      end
  | _ => None
  end.

(** The [subcat] field of a category node: absent (or falsy) for no
    sub-category, an object for one, an array for several. *)
Definition decode_subcats (v : jsval) : option (list string) :=
  if truthy v then
    match v with
    | JArr l => mapM node_id l
    | JObj _ => s ← node_id v; Some [s]
    | _ => None
    end
  else Some [].

Definition decode_category (v : jsval) : option RawCategory :=
  match v with
  | JObj ps =>
      match lookup_prop "id" ps with
      | Some (JStr s) =>
          subs ← decode_subcats (default JUndefined (lookup_prop "subcat" ps));
          Some {| cat_id := s; cat_subcats := subs |}
      | _ => None
      end
  | _ => None
  end.

(** [entry.caps.categories.category]: one category as an object, or an
    array of them. *)
Definition decode_categories (v : jsval) : option (list RawCategory) :=
  match v with
  | JArr l => mapM decode_category l
  | _ => c ← decode_category v; Some [c]
  end.

(** The entries one category contributes: its identifier, then its
    sub-categories', in order. *)
Definition category_block (c : RawCategory) : list number :=
  parse_int_string (cat_id c) :: map parse_int_string (cat_subcats c).

Definition flatten_categories (cs : list RawCategory) : list number :=
  concat (map category_block cs).

(** How fast-xml-parser lays out a list of children: none is absent,
    one is the child itself, more are an array. *)
Definition xml_children (l : list jsval) : option jsval :=
  match l with
  | [] => None
  | [x] => Some x
  | _ => Some (JArr l)
  end.

Definition encode_node (s : string) : jsval := JObj [("id", JStr s)].

Definition encode_category (c : RawCategory) : jsval :=
  JObj (("id", JStr (cat_id c)) ::
        match xml_children (map encode_node (cat_subcats c)) with
        | Some v => [("subcat", v)]
        | None => []
        end).

Definition encode_categories (cs : list RawCategory) : jsval :=
  default JUndefined (xml_children (map encode_category cs)).

(** A reference with no local state: the numbers a category contributes,
    computed by a function that returns them or throws, concatenated in
    order. *)
Definition parsed_id (x : jsval) : res number :=
  id <- get_prop x "id" ;; parseInt id.

Definition category_numbers (cat : jsval) : res (list number) :=
  n <- parsed_id cat ;;
  subcat <- get_prop cat "subcat" ;;
  if truthy subcat then
    match subcat with
    | JArr subs => ns <- js_map parsed_id subs ;; Ok (n :: ns)
    | _ => m <- parsed_id subcat ;; Ok [n; m]
    end
  else Ok [n].

Definition parseCategories_ref (category : jsval) : res (list number) :=
  blocks <- js_map category_numbers (as_array category) ;; Ok (concat blocks).

(** ** Sample data for the witnesses *)

(** The example of the spec: category 1 with sub-categories 10 and 11,
    then category 2 without. *)
Definition spec_example : jsval :=
  JArr [JObj [("id", JStr "1"); ("name", JStr "Movies");
              ("subcat", JArr [JObj [("id", JStr "10")]; JObj [("id", JStr "11")]])];
        JObj [("id", JStr "2")]].

Definition spec_example_tree : list RawCategory :=
  [{| cat_id := "1"; cat_subcats := ["10"; "11"] |};
   {| cat_id := "2"; cat_subcats := [] |}].

(** ** Lemmas on the code *)

Lemma push_id_node (v : jsval) (s : string) (acc : list number) :
  node_id v = Some s -> push_id v acc = Ok (tt, acc ++ [parse_int_string s]).
Proof.
  destruct v as [| | | | | |ps]; try discriminate. unfold node_id.
  destruct (lookup_prop "id" ps) as [[| | | |s'| |]|] eqn:E; try discriminate.
  intros [= <-]. unfold push_id, st_bind, st_lift. simpl. by rewrite E.
Qed.

Lemma decode_subcats_Some (v : jsval) (subs : list string) :
  decode_subcats v = Some subs ->
  (truthy v = false /\ subs = []) \/
  (exists l, v = JArr l /\ Forall2 (fun x s => node_id x = Some s) l subs) \/
  (exists s, node_id v = Some s /\ (forall l, v <> JArr l) /\ subs = [s]).
Proof.
  unfold decode_subcats. destruct (truthy v) eqn:Ht; [|intros [= <-]; by left].
  destruct v as [| | | | |l|ps]; try discriminate.
  - intros H%mapM_Some. right; left. eauto.
  - destruct (node_id (JObj ps)) as [s|] eqn:Hs; simpl; [|discriminate].
    intros [= <-]. right; right. exists s. split_and!; [done|congruence|done].
Qed.

Lemma decode_category_Some (v : jsval) (c : RawCategory) :
  decode_category v = Some c ->
  exists ps, v = JObj ps /\ node_id v = Some (cat_id c) /\
    decode_subcats (default JUndefined (lookup_prop "subcat" ps)) = Some (cat_subcats c).
Proof.
  destruct v as [| | | | | |ps]; try discriminate. simpl.
  destruct (lookup_prop "id" ps) as [[| | | |s| |]|]; try discriminate.
  destruct (decode_subcats _) as [subs|] eqn:E; simpl; [|discriminate].
  intros [= <-]. eauto.
Qed.

(** The callback appends the block of a decoded category. *)
Lemma category_cb_decoded (v : jsval) (c : RawCategory) (acc : list number) :
  decode_category v = Some c ->
  category_cb v acc = Ok (tt, acc ++ category_block c).
Proof.
  intros (ps & -> & Hid & Hsub)%decode_category_Some.
  unfold category_cb. unfold st_bind at 1. rewrite (push_id_node _ _ _ Hid).
  unfold st_bind, st_lift. simpl get_prop. cbv beta iota.
  set (sub := default JUndefined (lookup_prop "subcat" ps)) in *.
  unfold category_block.
  destruct (decode_subcats_Some sub _ Hsub) as [[-> ->]|[(l & -> & Hl)|(s & Hs & Hna & ->)]].
  - done.
  - simpl. destruct (st_map_append push_id (fun s => [parse_int_string s]) l (cat_subcats c)
                       (acc ++ [parse_int_string (cat_id c)])) as [us ->].
    { eapply Forall2_impl; [done|]. intros x s Hx acc'. by apply push_id_node. }
    by rewrite concat_map_singleton, <-app_assoc.
  - destruct sub as [| | | | | |ps']; try discriminate; try (by exfalso; eapply Hna).
    simpl. rewrite (push_id_node _ _ _ Hs). by rewrite <-app_assoc.
Qed.

Lemma decode_categories_Some (v : jsval) (cs : list RawCategory) :
  decode_categories v = Some cs ->
  Forall2 (fun x c => decode_category x = Some c) (as_array v) cs.
Proof.
  destruct (decide (is_array v = true)) as [Ha|Ha].
  - destruct v; try discriminate. simpl. by intros H%mapM_Some.
  - assert (as_array v = [v]) as -> by (destruct v; try done; by destruct Ha).
    assert (decode_categories v = (c ← decode_category v; Some [c])) as ->
      by (destruct v; try done; by destruct Ha).
    destruct (decode_category v) eqn:E; simpl; [|discriminate].
    intros [= <-]. by constructor.
Qed.

Lemma decode_encode_subcats (subs : list string) :
  decode_subcats (default JUndefined (xml_children (map encode_node subs))) = Some subs.
Proof.
  destruct subs as [|s [|s' subs]]; [done|done|].
  unfold xml_children, decode_subcats. simpl truthy. cbv iota beta.
  apply mapM_Some. apply Forall2_fmap_l. apply Forall_Forall2_diag. by apply Forall_true.
Qed.

Lemma decode_encode_category (c : RawCategory) : decode_category (encode_category c) = Some c.
Proof.
  destruct c as [id [|s [|s' subs]]]; [done|done|].
  pose proof (decode_encode_subcats (s :: s' :: subs)) as Hs. simpl in *. by rewrite Hs.
Qed.

Lemma decode_encode_categories (cs : list RawCategory) :
  cs <> [] -> decode_categories (encode_categories cs) = Some cs.
Proof.
  intros Hne. destruct cs as [|c [|c' cs]]; [done| |].
  - change (decode_categories (encode_categories [c]))
      with (c' ← decode_category (encode_category c); Some [c']).
    by rewrite decode_encode_category.
  - unfold encode_categories.
    change (xml_children (map encode_category (c :: c' :: cs)))
      with (Some (JArr (map encode_category (c :: c' :: cs)))).
    cbn [default decode_categories].
    apply mapM_Some, Forall2_fmap_l, Forall_Forall2_diag, Forall_forall.
    intros x _. apply decode_encode_category.
Qed.

Lemma flatten_categories_app (cs1 cs2 : list RawCategory) :
  flatten_categories (cs1 ++ cs2) = flatten_categories cs1 ++ flatten_categories cs2.
Proof. unfold flatten_categories. by rewrite map_app, concat_app. Qed.

(** The loop over decoded categories appends their blocks. *)
Lemma parseCategories_decoded (v : jsval) (cs : list RawCategory) :
  Forall2 (fun x c => decode_category x = Some c) (as_array v) cs ->
  parseCategories v = Ok (flatten_categories cs).
Proof.
  intros H. unfold parseCategories.
  destruct (st_map_append category_cb category_block (as_array v) cs []) as [us ->]; [|done].
  eapply Forall2_impl; [done|]. intros x c Hx acc. by apply category_cb_decoded.
Qed.

Lemma parseCategories_flatten (v : jsval) (cs : list RawCategory) (l : list number) :
  decode_categories v = Some cs -> parseCategories v = Ok l -> l = flatten_categories cs.
Proof.
  intros Hd%decode_categories_Some Hp.
  rewrite (parseCategories_decoded v cs Hd) in Hp. by injection Hp.
Qed.

Lemma push_id_parsed (x : jsval) (acc : list number) :
  push_id x acc = match parsed_id x with
                  | Ok n => Ok (tt, acc ++ [n])
                  | Throw e => Throw e
                  end.
Proof.
  unfold push_id, parsed_id, st_bind, st_lift, push.
  destruct (get_prop x "id"); simpl; [|done]. by destruct (parseInt _).
Qed.

Lemma category_cb_numbers (cat : jsval) (acc : list number) :
  category_cb cat acc = match category_numbers cat with
                        | Ok b => Ok (tt, acc ++ b)
                        | Throw e => Throw e
                        end.
Proof.
  unfold category_cb, category_numbers. unfold st_bind at 1. rewrite push_id_parsed.
  destruct (parsed_id cat) as [n|e]; simpl; [|done].
  unfold st_bind at 1, st_lift at 1. destruct (get_prop cat "subcat") as [sub|e]; simpl; [|done].
  destruct (truthy sub); [|done].
  destruct sub as [| | | | |subs|ps];
    try (unfold st_bind; rewrite push_id_parsed; destruct (parsed_id _); simpl;
         [by rewrite <-app_assoc|done]).
  pose proof (st_map_blocks push_id (fun x => y <- parsed_id x ;; Ok [y]) subs (acc ++ [n]))
    as Hb.
  rewrite js_map_singleton in Hb.
  specialize (Hb ltac:(intros; rewrite push_id_parsed; by destruct (parsed_id _))).
  unfold st_bind, st_ret. destruct (st_map push_id subs (acc ++ [n])) as [[us acc']|e];
    destruct (js_map parsed_id subs) as [ns|e']; simpl in *; try congruence.
  rewrite concat_map_singleton, map_id, <-app_assoc in Hb. by injection Hb as ->.
Qed.

(** The push loop computes the stateless reference. *)
Lemma parseCategories_blocks (v : jsval) : parseCategories v = parseCategories_ref v.
Proof.
  unfold parseCategories, parseCategories_ref.
  rewrite (st_map_blocks category_cb category_numbers) by apply category_cb_numbers.
  by destruct (js_map category_numbers (as_array v)).
Qed.

(** ** Results are doubles *)

Lemma parsed_id_wf (x : jsval) (n : number) : parsed_id x = Ok n -> number_wf n = true.
Proof. unfold parsed_id. destruct (get_prop x "id"); simpl; [apply parseInt_wf|discriminate]. Qed.

Lemma category_numbers_wf (c : jsval) (b : list number) :
  category_numbers c = Ok b -> Forall (fun n => number_wf n = true) b.
Proof.
  unfold category_numbers. destruct (parsed_id c) as [n|] eqn:Hn; simpl; [|discriminate].
  apply parsed_id_wf in Hn.
  destruct (get_prop c "subcat") as [sub|]; simpl; [|discriminate].
  destruct (truthy sub); [|intros [= <-]; by constructor].
  destruct sub as [| | | | |subs|];
    try (destruct (parsed_id _) as [m|] eqn:Hm; simpl; [|discriminate];
         intros [= <-]; apply parsed_id_wf in Hm; by repeat constructor).
  destruct (js_map parsed_id subs) as [ns|] eqn:Hns; simpl; [|discriminate].
  intros [= <-]. constructor; [done|]. by eapply js_map_Forall; [apply parsed_id_wf|].
Qed.

Lemma parseCategories_wf (v : jsval) (l : list number) :
  parseCategories v = Ok l -> Forall (fun n => number_wf n = true) l.
Proof.
  rewrite parseCategories_blocks. unfold parseCategories_ref.
  destruct (js_map category_numbers (as_array v)) as [bs|] eqn:Hbs; simpl; [|discriminate].
  intros [= <-]. apply Forall_concat.
  by eapply js_map_Forall; [apply category_numbers_wf|].
Qed.

(** ** Categories up to the order of their attributes *)

#[export] Instance parsed_id_proper : Proper ((≡) ==> (=)) parsed_id.
Proof.
  intros x y Hxy. apply bind_equiv_eq; [by apply get_prop_proper|].
  intros a b Hab. by apply parseInt_proper.
Qed.

Lemma as_array_equiv (x y : jsval) : x ≡ y -> Forall2 (≡) (as_array x) (as_array y).
Proof. intros Hxy. inversion Hxy; subst; simpl; by repeat constructor. Qed.

#[export] Instance category_numbers_proper : Proper ((≡) ==> (=)) category_numbers.
Proof.
  intros x y Hxy. unfold category_numbers. rewrite Hxy.
  destruct (parsed_id y) as [n|e]; simpl; [|done].
  apply bind_equiv_eq; [by apply get_prop_proper|]. intros a b Hab.
  rewrite Hab. destruct (truthy b); [|done].
  inversion Hab as [| | | | |l1 l2 Hl|]; subst; try done; [|by rewrite Hab].
  by rewrite (js_map_Forall2_eq _ parsed_id parsed_id l1 l2 Hl parsed_id_proper).
Qed.

#[export] Instance parseCategories_proper : Proper ((≡) ==> (=)) parseCategories.
Proof.
  intros x y Hxy. rewrite !parseCategories_blocks. unfold parseCategories_ref.
  by rewrite (js_map_Forall2_eq _ _ _ _ _ (as_array_equiv x y Hxy) category_numbers_proper).
Qed.

(** The decoders of the spec read objects through [lookup_prop] too. *)
#[export] Instance node_id_proper : Proper ((≡) ==> (=)) node_id.
Proof.
  intros x y Hxy. inversion Hxy as [| | | | | |ps qs Hk]; subst; try done. simpl.
  specialize (Hk "id"). inversion Hk as [a b Hab|]; [|done].
  by destruct a; inversion Hab.
Qed.

#[export] Instance decode_subcats_proper : Proper ((≡) ==> (=)) decode_subcats.
Proof.
  intros x y Hxy. unfold decode_subcats. rewrite (truthy_proper x y Hxy).
  inversion Hxy as [| | | | |l1 l2 Hl|]; subst; try done.
  - by rewrite (mapM_Forall2_eq _ node_id node_id l1 l2 Hl node_id_proper).
  - by rewrite (node_id_proper _ _ Hxy).
Qed.

#[export] Instance decode_category_proper : Proper ((≡) ==> (=)) decode_category.
Proof.
  intros x y Hxy. inversion Hxy as [| | | | | |ps qs Hk]; subst; try done. simpl.
  pose proof (Hk "id") as Hid. pose proof (default_equiv _ _ (Hk "subcat")) as Hsub.
  inversion Hid as [a b Hab|]; [|done]. destruct a; inversion Hab; subst; try done.
  by rewrite Hsub.
Qed.

#[export] Instance decode_categories_proper : Proper ((≡) ==> (=)) decode_categories.
Proof.
  intros x y Hxy. inversion Hxy as [| | | | |l1 l2 Hl|]; subst; try done; unfold decode_categories.
  - by rewrite (mapM_Forall2_eq _ _ _ l1 l2 Hl decode_category_proper).
  - by rewrite (decode_category_proper _ _ Hxy).
Qed.

(** ** Properties of [parseCategories] *)

(** [C2] Refinement: on every category tree the decoder accepts (one
    category or an array of them, each with no, one or several
    sub-categories, whatever other attributes the nodes carry),
    [parseCategories] returns the specified flattening: each
    category's parsed identifier followed by those of its
    sub-categories, in source order, with no error. *)
Theorem parseCategories_refines (v : jsval) (cs : list RawCategory) :
  decode_categories v = Some cs -> parseCategories v = Ok (flatten_categories cs).
Proof. intros H%decode_categories_Some. by apply parseCategories_decoded. Qed.

(** [C4] For every non-empty category tree laid out the way
    fast-xml-parser lays it out (a single category or sub-category as
    an object, several as an array, none as an absent key), the code
    computes the flattening. *)
Theorem parseCategories_encoded (cs : list RawCategory) :
  cs <> [] -> parseCategories (encode_categories cs) = Ok (flatten_categories cs).
Proof.
  intros Hne. apply parseCategories_decoded, decode_categories_Some.
  by apply decode_encode_categories.
Qed.

(** [C6] Order: the [i]-th category's identifier sits right after the
    entries of the categories before it, and its [j]-th sub-category
    [j + 1] places further: parents before their children, categories
    in source order. *)
Theorem parseCategories_order (v : jsval) (cs : list RawCategory) (l : list number)
    (i : nat) (c : RawCategory) :
  decode_categories v = Some cs -> parseCategories v = Ok l -> cs !! i = Some c ->
  let k := length (flatten_categories (take i cs)) in
  l !! k = Some (parse_int_string (cat_id c)) /\
  forall j s, cat_subcats c !! j = Some s -> l !! (k + 1 + j)%nat = Some (parse_int_string s).
Proof.
  intros Hd Hp Hi. cbv zeta. rewrite (parseCategories_flatten v cs l Hd Hp).
  rewrite <-(take_drop_middle cs i c Hi), flatten_categories_app.
  change (flatten_categories (c :: drop (S i) cs))
    with (category_block c ++ flatten_categories (drop (S i) cs)).
  rewrite (take_drop_middle cs i c Hi).
  remember (flatten_categories (take i cs)) as pre.
  unfold category_block. split.
  - rewrite lookup_app_r, Nat.sub_diag by lia. done.
  - intros j s Hj. rewrite lookup_app_r by lia.
    replace (length pre + 1 + j - length pre)%nat with (S j) by lia. simpl.
    rewrite lookup_app_l by (rewrite length_map; by apply lookup_lt_Some in Hj).
    by rewrite list_lookup_fmap, Hj.
Qed.

(** [C7] Count: the result has one entry per category plus one per
    sub-category (no deduplication, nothing dropped). *)
Theorem parseCategories_length (v : jsval) (cs : list RawCategory) (l : list number) :
  decode_categories v = Some cs -> parseCategories v = Ok l ->
  length l = (length cs + sum_list_with (fun c => length (cat_subcats c)) cs)%nat.
Proof.
  intros Hd Hp. rewrite (parseCategories_flatten v cs l Hd Hp). clear.
  induction cs as [|c cs IH]; [done|]. unfold flatten_categories in *. simpl.
  rewrite length_app, length_map, IH. lia.
Qed.

(** [C11] Errors: when an element of [categoryEntry] is undefined or
    null (in particular when the indexer has no [category] at all),
    the code throws the TypeError of reading its [id], after the
    categories before it were processed. *)
Theorem parseCategories_throws (v : jsval) (l1 l2 : list jsval) (cs : list RawCategory)
    (b : nullish) :
  as_array v = l1 ++ nullish_val b :: l2 -> mapM decode_category l1 = Some cs ->
  parseCategories v = Throw (TypeError (CannotReadProperty b "id")).
Proof.
  intros Hv Hl1%mapM_Some. unfold parseCategories. rewrite Hv.
  destruct (st_map_append category_cb category_block l1 cs []) as [us Hus].
  { eapply Forall2_impl; [done|]. intros x c Hx acc. by apply category_cb_decoded. }
  erewrite st_map_app_Throw; [done|exact Hus|].
  unfold category_cb, push_id, st_bind, st_lift. by rewrite get_prop_nullish.
Qed.

(** [C12] A category whose identifier does not start with a number
    (after white space and a sign) is not reported: the code records
    NaN for it and goes on. *)
Theorem parseCategories_nan (s r : string) (ch : ascii) :
  trim_start s = String ch r -> stops_decimal (String ch r) = true ->
  Ascii.eqb ch "-"%char = false -> Ascii.eqb ch "+"%char = false ->
  parseCategories (encode_categories [{| cat_id := s; cat_subcats := [] |}]) = Ok [NaN].
Proof.
  intros Hs Hstop Hmin Hplus.
  change (parseCategories (encode_categories [{| cat_id := s; cat_subcats := [] |}]))
    with (Ok [parse_int_string s]).
  by rewrite (parse_int_string_nan s r ch).
Qed.

(** [C18] Equivalence: on every input, errors included, the code with
    its local array filled from callbacks computes what the stateless
    reference computes: the numbers of the categories concatenated in
    order, or the exception of the first category that throws. *)
Theorem parseCategories_equiv (v : jsval) : parseCategories v = parseCategories_ref v.
Proof. apply parseCategories_blocks. Qed.

(** ** Witnesses *)

Lemma parseCategories_refines_witness :
  decode_categories spec_example = Some spec_example_tree /\
  parseCategories spec_example =
    Ok [Finite false 1; Finite false 10; Finite false 11; Finite false 2].
Proof.
  split; [reflexivity|].
  rewrite (parseCategories_refines spec_example spec_example_tree eq_refl). reflexivity.
Defined.

(** A single category with a single sub-category, each an object. *)
Lemma parseCategories_encoded_witness :
  [{| cat_id := "3"; cat_subcats := ["30"] |}] <> [] /\
  parseCategories (encode_categories [{| cat_id := "3"; cat_subcats := ["30"] |}]) =
    Ok [Finite false 3; Finite false 30].
Proof.
  split; [done|].
  rewrite (parseCategories_encoded [{| cat_id := "3"; cat_subcats := ["30"] |}]) by done.
  reflexivity.
Defined.

Lemma parseCategories_order_witness :
  decode_categories spec_example = Some spec_example_tree /\
  parseCategories spec_example =
    Ok [Finite false 1; Finite false 10; Finite false 11; Finite false 2] /\
  spec_example_tree !! 1%nat = Some {| cat_id := "2"; cat_subcats := [] |} /\
  [Finite false 1; Finite false 10; Finite false 11; Finite false 2] !! 3%nat
    = Some (Finite false 2).
Proof.
  split_and!; [reflexivity|reflexivity|reflexivity|].
  exact (proj1 (parseCategories_order spec_example spec_example_tree _ 1
                  {| cat_id := "2"; cat_subcats := [] |} eq_refl eq_refl eq_refl)).
Defined.

Lemma parseCategories_length_witness :
  decode_categories spec_example = Some spec_example_tree /\
  parseCategories spec_example =
    Ok [Finite false 1; Finite false 10; Finite false 11; Finite false 2] /\
  length [Finite false 1; Finite false 10; Finite false 11; Finite false 2] = 4%nat.
Proof.
  split_and!; [reflexivity|reflexivity|].
  exact (parseCategories_length spec_example spec_example_tree _ eq_refl eq_refl).
Defined.

(** An indexer with no category: [category] is undefined. *)
Lemma parseCategories_throws_witness :
  as_array JUndefined = [] ++ nullish_val NUndefined :: [] /\
  mapM decode_category [] = Some [] /\
  parseCategories JUndefined = Throw (TypeError (CannotReadProperty NUndefined "id")).
Proof.
  split_and!; [reflexivity|reflexivity|].
  exact (parseCategories_throws JUndefined [] [] [] NUndefined eq_refl eq_refl).
Defined.

Lemma parseCategories_nan_witness :
  trim_start "Movies" = String "M"%char "ovies" /\
  stops_decimal (String "M"%char "ovies") = true /\
  parseCategories (encode_categories [{| cat_id := "Movies"; cat_subcats := [] |}]) = Ok [NaN].
Proof.
  split_and!; [reflexivity|reflexivity|].
  exact (parseCategories_nan "Movies" "ovies" "M"%char eq_refl eq_refl eq_refl eq_refl).
Defined.
