(* ===== verification/Indexer.v ===== *)
(** * The [Indexer] record and the client's configuration

    Neither is under [src/]: [./models/indexer] and [./config] are
    imported by [src/jackett.ts], so both are modelled from the spec.
    [Indexer] holds what [mapToIndexer] passes to its constructor, in
    the order of the arguments: the identifier and the title copied
    from the entry, a priority, the protocol kind, the flattened
    categories, a second numeric field reserved for later use, the
    per-indexer torznab endpoint and the API key.  [JackettConfig] is
    [Config.jackett]: the base URL, the alternate URL (empty when not
    set) and the API key.  Records compare with [≡] on the two fields
    copied from the parsed entry and [=] on the others. *)

From stdpp Require Import base list strings.
From S2P Require Import Prelude JsNumber JsValue JsEquiv.

Record JackettConfig := {
  cfg_url : string;
  cfg_altUrl : string;
  cfg_apiKey : string
}.

Record Indexer := {
  idx_id : jsval;
  idx_priority : number;
  idx_name : jsval;
  idx_protocol : string;
  idx_categories : list number;
  idx_reserved : number;
  idx_url : string;
  idx_apiKey : string
}.

#[export] Instance indexer_equiv : Equiv Indexer := fun i1 i2 =>
  idx_id i1 ≡ idx_id i2 /\ idx_priority i1 = idx_priority i2 /\
  idx_name i1 ≡ idx_name i2 /\ idx_protocol i1 = idx_protocol i2 /\
  idx_categories i1 = idx_categories i2 /\ idx_reserved i1 = idx_reserved i2 /\
  idx_url i1 = idx_url i2 /\ idx_apiKey i1 = idx_apiKey i2.

#[export] Instance indexer_equivalence : Equivalence (≡@{Indexer}).
Proof.
  split.
  - intros i. split_and!; reflexivity.
  - intros i1 i2 (?&?&?&?&?&?&?&?). split_and!; by symmetry.
  - intros i1 i2 i3 (?&?&?&?&?&?&?&?) (?&?&?&?&?&?&?&?). split_and!; by etrans.
Qed.
