(* ===== verification/Async.v ===== *)
(** * Asynchronous programs and the collaborators of [get]

    [get] is an [async] method: it awaits [axios.get(this.requestUrl)]
    and then runs synchronously to the end.  [Async A] is such a
    program: finished with a completion, or awaiting the answer to a
    GET request with the rest of the program as a continuation.  The
    transport ([axios.get]) and the XML parser ([parse] of
    fast-xml-parser, with the options type of [parseOpts]) are the
    type classes [HttpTransport] and [XmlParser]: the client's
    theorems are proved for every instance.  [run] runs a program
    against a transport and [requests] lists the requests it issues. *)

From stdpp Require Import base list strings.
From S2P Require Import Prelude JsValue.

Local Open Scope js_scope.

(** The options object [parseOpts] passes to the parser. *)
Record ParseOptions := {
  attributeNamePrefix : string;
  ignoreAttributes : bool
}.

(** A client program: finished with a completion, or awaiting the
    answer (the body, or the rejection) of a GET request. *)
Inductive Async (A : Type) : Type :=
| Done (r : res A)
| AwaitGet (target : string) (k : res string -> Async A).
Arguments Done {A} r.
Arguments AwaitGet {A} target k.

(** [axios.get(url)]: the response's [data], or the rejection. *)
Class HttpTransport := { http_get : string -> res string }.

(** [parse(text, options)] of fast-xml-parser. *)
Class XmlParser := { xml_parse : ParseOptions -> string -> jsval }.

Section Run.
Context `{HttpTransport}.

(** Running a program against the transport. *)
Fixpoint run {A} (p : Async A) : res A :=
  match p with
  | Done r => r
  | AwaitGet u k => run (k (http_get u))
  end.

(** The requests a program issues, in order. *)
Fixpoint requests {A} (p : Async A) : list string :=
  match p with
  | Done _ => []
  | AwaitGet u k => u :: requests (k (http_get u))
  end.

End Run.
