(* ===== verification/Xml.v ===== *)
(** * XML documents and the layout fast-xml-parser gives them

    [get] hands the body of the response to [parse(data, parseOpts)]
    of fast-xml-parser, with [attributeNamePrefix: ''] and
    [ignoreAttributes: false].  This file models the documents Jackett
    sends: elements with attributes and child elements ([XElem]), and
    elements holding text only ([XText]); [print_xml] writes them as
    text.  [xml_value] is the value the library builds from an
    element, as its documentation and [node2json] describe it:

    - an element with no attribute and no child is the empty string;
    - an element holding only text is the value of its text (the
      library trims and may convert it to a number or a boolean; the
      conversion is a parameter, [text_value]);
    - otherwise an object: one property per attribute (a string, the
      name without prefix) and one per child tag, holding the child's
      value when the tag occurs once and the array of the values, in
      order, when it occurs more than once; a child overwrites an
      attribute of the same name.

    [XmlParserLaws] is this promise of the parser to the client,
    stated up to [≡] (the client cannot see the order of the
    properties, [JsEquiv]) for well-formed documents ([xml_wf]: names
    made of name characters, distinct attribute names, no markup
    characters in values and text, which the library would keep
    escaped). *)

From Stdlib Require Import Ascii.
From stdpp Require Import base list strings sets.
From S2P Require Import Prelude JsValue JsEquiv Categories Async.

Local Open Scope js_scope.

(** ** Documents *)

#[local] Set Warnings "-register-all".
Inductive xml :=
| XElem (tag : string) (attrs : list (string * string)) (children : list xml)
| XText (tag : string) (text : string).

Definition xml_tag (d : xml) : string :=
  match d with XElem t _ _ | XText t _ => t end.

(** Induction with a hypothesis for every child. *)
Definition xml_ind' (P : xml -> Prop)
  (fE : forall t attrs kids, Forall P kids -> P (XElem t attrs kids))
  (fT : forall t s, P (XText t s)) : forall d, P d :=
  fix F d :=
    match d with
    | XElem t attrs kids =>
        fE t attrs kids ((fix G l : Forall P l :=
                            match l with
                            | [] => List.Forall_nil _
                            | x :: xs => List.Forall_cons _ x xs (F x) (G xs)
                            end) kids)
    | XText t s => fT t s
    end.

(** ** Printing *)

Definition quote : ascii := Ascii.ascii_of_nat 34.

(** [ name="value"] *)
Definition print_attr (a : string * string) : list ascii :=
  " "%char :: String.list_ascii_of_string a.1 ++
  "="%char :: quote :: String.list_ascii_of_string a.2 ++ [quote].

(** [</tag>] *)
Definition close_tag (t : string) : list ascii :=
  "<"%char :: "/"%char :: String.list_ascii_of_string t ++ [">"%char].

Fixpoint print_xml_l (d : xml) : list ascii :=
  match d with
  | XElem t attrs kids =>
      "<"%char :: String.list_ascii_of_string t ++ concat (map print_attr attrs) ++
      ">"%char :: concat (map print_xml_l kids) ++ close_tag t
  | XText t s =>
      "<"%char :: String.list_ascii_of_string t ++
      ">"%char :: String.list_ascii_of_string s ++ close_tag t
  end.

Definition print_xml (d : xml) : string := String.string_of_list_ascii (print_xml_l d).

(** ** Well-formed documents *)

(** Characters of tag and attribute names. *)
Definition name_char (c : ascii) : bool :=
  negb (existsb (Ascii.eqb c) [" "%char; ">"%char; "<"%char; "="%char; "/"%char; quote; "&"%char]).

(** Characters of attribute values and text. *)
Definition text_char (c : ascii) : bool :=
  negb (existsb (Ascii.eqb c) ["<"%char; ">"%char; "&"%char; quote]).

Definition is_name (s : string) : bool :=
  negb (String.eqb s "") && forallb name_char (String.list_ascii_of_string s).

Definition is_value (s : string) : bool := forallb text_char (String.list_ascii_of_string s).

Fixpoint xml_wf (d : xml) : bool :=
  match d with
  | XElem t attrs kids =>
      is_name t && forallb (fun a => is_name a.1 && is_value a.2) attrs &&
      bool_decide (NoDup attrs.*1) && forallb xml_wf kids
  | XText t s => is_name t && negb (String.eqb s "") && is_value s
  end.

(** ** The layout of fast-xml-parser *)

Definition attr_props (attrs : list (string * string)) : list (string * jsval) :=
  map (fun a => (a.1, JStr a.2)) attrs.

(** One property per child tag: the value of a single child, the array
    of the values of repeated ones. *)
Definition group_children (ps : list (string * jsval)) : list (string * jsval) :=
  map (fun k => (k, default JUndefined (xml_children (filter (fun kv => kv.1 = k) ps).*2)))
      (remove_dups ps.*1).

Fixpoint xml_value (text_value : string -> jsval) (d : xml) : jsval :=
  match d with
  | XText _ s => text_value s
  | XElem _ [] [] => JStr ""
  | XElem _ attrs kids =>
      JObj (group_children (map (fun c => (xml_tag c, xml_value text_value c)) kids)
            ++ attr_props attrs)
  end.

(** What [parse] promises for the options of [parseOpts]: a
    well-formed document becomes an object with one property, named
    after the root element, holding the root's value. *)
Class XmlParserLaws `{XmlParser} := {
  text_value : string -> jsval;
  parse_document (opts : ParseOptions) (d : xml) :
    attributeNamePrefix opts = "" -> ignoreAttributes opts = false -> xml_wf d = true ->
    xml_parse opts (print_xml d) ≡ JObj [(xml_tag d, xml_value text_value d)]
}.

(** ** Reading the layout *)

Lemma lookup_prop_map_keys (k : string) (l : list string) (f : string -> jsval) :
  lookup_prop k (map (fun k' => (k', f k')) l) = if decide (k ∈ l) then Some (f k) else None.
Proof.
  induction l as [|k' l IH]; simpl.
  - repeat case_decide; set_solver || done.
  - destruct (String.eqb_spec k k') as [->|Hne].
    + by rewrite decide_True by set_solver.
    + rewrite IH. repeat case_decide; set_solver || done.
Qed.

(** The property of a child tag: present exactly for the tags of the
    children. *)
Lemma lookup_prop_group (k : string) (ps : list (string * jsval)) :
  lookup_prop k (group_children ps) =
    if decide (k ∈ ps.*1)
    then Some (default JUndefined (xml_children (filter (fun kv => kv.1 = k) ps).*2))
    else None.
Proof.
  unfold group_children. rewrite lookup_prop_map_keys.
  case_decide as H1; case_decide as H2; try done; exfalso;
    rewrite elem_of_remove_dups in H1; tauto.
Qed.

(** Children of one tag make one property. *)
Lemma group_children_same (t : string) (vs : list jsval) :
  vs <> [] -> group_children (map (fun v => (t, v)) vs) = [(t, default JUndefined (xml_children vs))].
Proof.
  intros Hne. unfold group_children.
  assert (Hk : remove_dups (map (fun v => (t, v)) vs).*1 = [t]).
  { induction vs as [|v [|w ws] IH]; [done|done|]. simpl.
    case_match; [|exfalso; match goal with Hd : ¬ _ |- _ => apply Hd end; constructor].
    simpl in IH. apply IH. discriminate. }
  assert (Hf : filter (fun kv : string * jsval => kv.1 = t) (map (fun v => (t, v)) vs)
               = map (fun v => (t, v)) vs).
  { clear Hne Hk. induction vs as [|v vs IH]; [done|]. simpl.
    rewrite filter_cons, decide_True by done. by rewrite IH. }
  assert (Hs : (map (fun v => (t, v)) vs).*2 = vs).
  { clear. induction vs as [|v vs IH]; [done|]. cbn. f_equal. exact IH. }
  rewrite Hk. cbn [map]. by rewrite Hf, Hs.
Qed.

Lemma lookup_prop_app (k : string) (ps qs : list (string * jsval)) :
  lookup_prop k (ps ++ qs) =
    match lookup_prop k ps with Some v => Some v | None => lookup_prop k qs end.
Proof. induction ps as [|[k' v] ps IH]; simpl; [done|]. by destruct (String.eqb k k'). Qed.

(** Children laid out from [≡] values are [≡]. *)
Lemma xml_children_equiv (l1 l2 : list jsval) :
  Forall2 (≡) l1 l2 -> default JUndefined (xml_children l1) ≡ default JUndefined (xml_children l2).
Proof.
  intros Hl. destruct Hl as [|x y [|x' l1] [|y' l2] Hxy Hl]; simpl; try done; try reflexivity;
    try (inversion Hl; done). constructor. by constructor.
Qed.

Lemma filter_absent (k : string) (ps : list (string * jsval)) :
  k ∉ ps.*1 -> filter (fun kv => kv.1 = k) ps = [].
Proof.
  induction ps as [|[k' v] ps IH]; intros Hk; [done|]. simpl in Hk.
  rewrite filter_cons, decide_False by set_solver. apply IH. set_solver.
Qed.

(** The property of a tag that exactly one child has is that child's
    value; a tag no child has gives no property. *)
Lemma lookup_prop_group_single (k : string) (v : jsval) (ps1 ps2 : list (string * jsval)) :
  k ∉ (ps1 ++ ps2).*1 -> lookup_prop k (group_children (ps1 ++ (k, v) :: ps2)) = Some v.
Proof.
  intros Hk. rewrite lookup_prop_group, decide_True by (rewrite fmap_app; simpl; set_solver).
  rewrite filter_app, filter_cons, decide_True by done.
  rewrite fmap_app in Hk. rewrite !filter_absent by set_solver. done.
Qed.

Lemma lookup_prop_group_absent (k : string) (ps : list (string * jsval)) :
  k ∉ ps.*1 -> lookup_prop k (group_children ps) = None.
Proof. intros Hk. by rewrite lookup_prop_group, decide_False. Qed.

(** The value of an element with an attribute or a child. *)
Lemma xml_value_elem (tv : string -> jsval) (t : string) (attrs : list (string * string)) (kids : list xml) :
  attrs <> [] \/ kids <> [] ->
  xml_value tv (XElem t attrs kids) =
    JObj (group_children (map (fun c => (xml_tag c, xml_value tv c)) kids) ++ attr_props attrs).
Proof. intros [H|H]; destruct attrs, kids; done. Qed.
