(* ===== verification/XmlParse.v ===== *)
(** * A model XML parser: the layout promise is satisfiable

    [XmlParserLaws] states what fast-xml-parser promises the client.
    This file gives an instance of it, so that the theorems proved
    under the promise are not vacuous: a recursive-descent parser of
    the documents [print_xml] writes ([parse_node], [parse_nodes] and
    [parse_attrs], with fuel), the round trip
    [parse_xml (print_xml d) = Some d] for every well-formed document,
    and the parser [model_parser] that builds [xml_value] of what it
    reads, with text kept as a string.

    Fuel: [parse_node] and [parse_nodes] consume one unit per element
    and per child list; [xml_size] counts what a document needs, and
    the length of its printed text is more ([xml_size_print]), which is
    the fuel [parse_xml] gives.  [parse_attrs] runs with the length of
    its input, more than the number of attributes. *)

From Stdlib Require Import Ascii.
From stdpp Require Import base list strings.
From S2P Require Import Prelude JsValue JsEquiv Categories Async Xml.

Local Open Scope js_scope.

(** ** The parser *)

(** The longest prefix of name characters. *)
Fixpoint take_name (s : list ascii) : list ascii * list ascii :=
  match s with
  | c :: r => if name_char c then let '(n, r') := take_name r in (c :: n, r') else ([], s)
  | [] => ([], [])
  end.

(** The longest prefix without [stop]. *)
Fixpoint take_until (stop : ascii) (s : list ascii) : list ascii * list ascii :=
  match s with
  | c :: r => if Ascii.eqb c stop then ([], s) else let '(n, r') := take_until stop r in (c :: n, r')
  | [] => ([], [])
  end.

(** [s] without the prefix [p], if it has it. *)
Fixpoint strip_prefix (p s : list ascii) : option (list ascii) :=
  match p, s with
  | [], _ => Some s
  | c :: p', d :: s' => if Ascii.eqb c d then strip_prefix p' s' else None
  | _ :: _, [] => None
  end.

(** Whether [s] starts with [</]. *)
Definition at_close (s : list ascii) : bool :=
  match s with
  | c :: d :: _ => Ascii.eqb c "<"%char && Ascii.eqb d "/"%char
  | _ => false
  end.

(** Attributes [ name="value"], up to the first other character. *)
Fixpoint parse_attrs (fuel : nat) (s : list ascii) : option (list (string * string) * list ascii) :=
  match fuel with
  | O => None
  | S f =>
      match s with
      | c :: r =>
          if Ascii.eqb c " "%char then
            let '(n, r1) := take_name r in
            match strip_prefix ["="%char; quote] r1 with
            | Some r2 =>
                let '(v, r3) := take_until quote r2 in
                match strip_prefix [quote] r3 with
                | Some r4 =>
                    match parse_attrs f r4 with
                    | Some (attrs, r5) =>
                        Some ((String.string_of_list_ascii n, String.string_of_list_ascii v) :: attrs, r5)
                    | None => None
                    end
                | None => None
                end
            | None => None
            end
          else Some ([], s)
      | [] => Some ([], s)
      end
  end.

Fixpoint parse_node (fuel : nat) (s : list ascii) : option (xml * list ascii) :=
  match fuel with
  | O => None
  | S f =>
      match strip_prefix ["<"%char] s with
      | None => None
      | Some r =>
          let '(tl, r1) := take_name r in
          let t := String.string_of_list_ascii tl in
          match parse_attrs (length r1) r1 with
          | None => None
          | Some (attrs, r2) =>
              match strip_prefix [">"%char] r2 with
              | None => None
              | Some r3 =>
                  if at_close r3 then
                    r4 ← strip_prefix (close_tag t) r3; Some (XElem t attrs [], r4)
                  else if bool_decide (head r3 = Some "<"%char) then
                    match parse_nodes f r3 with
                    | Some (kids, r4) => r5 ← strip_prefix (close_tag t) r4; Some (XElem t attrs kids, r5)
                    | None => None
                    end
                  else
                    let '(x, r4) := take_until "<"%char r3 in
                    match attrs with
                    | [] => r5 ← strip_prefix (close_tag t) r4;
                            Some (XText t (String.string_of_list_ascii x), r5)
                    | _ => None
                    end
              end
          end
      end
  end
with parse_nodes (fuel : nat) (s : list ascii) : option (list xml * list ascii) :=
  match fuel with
  | O => None
  | S f =>
      if at_close s then Some ([], s)
      else
        match parse_node f s with
        | Some (d, r) =>
            match parse_nodes f r with
            | Some (ds, r') => Some (d :: ds, r')
            | None => None
            end
        | None => None
        end
  end.

(** A whole document: one element and nothing after it. *)
Definition parse_xml (s : string) : option xml :=
  let l := String.list_ascii_of_string s in
  match parse_node (length l) l with
  | Some (d, []) => Some d
  | _ => None
  end.

(** What the parser needs: one unit per element, one per child list. *)
Fixpoint xml_size (d : xml) : nat :=
  match d with
  | XElem _ _ kids => 2 + sum_list (map (fun k => S (xml_size k)) kids)
  | XText _ _ => 1
  end.

(** The parser of the model: the layout of [xml_value], text kept as
    a string, [undefined] on what it cannot read. *)
Definition model_parser : XmlParser :=
  {| xml_parse _ s := match parse_xml s with
                      | Some d => JObj [(xml_tag d, xml_value JStr d)]
                      | None => JUndefined
                      end |}.

(** The first character after a tag name: a space before the
    attributes, or [>]. *)
Definition after_name_ok (r : list ascii) : Prop :=
  match r with c :: _ => name_char c = false | [] => True end.

(** ** Scanning lemmas *)

Lemma strip_prefix_app (p s : list ascii) : strip_prefix p (p ++ s) = Some s.
Proof. induction p as [|c p IH]; simpl; [done|]. by rewrite Ascii.eqb_refl. Qed.

Lemma take_name_app (n r : list ascii) :
  forallb name_char n = true ->
  after_name_ok r -> take_name (n ++ r) = (n, r).
Proof.
  intros Hn Hr. induction n as [|c n IH]; simpl in *.
  - destruct r as [|c r]; [done|]. simpl. by rewrite Hr.
  - apply andb_true_iff in Hn as [-> Hn]. by rewrite IH.
Qed.

Lemma take_until_app (stop : ascii) (v r : list ascii) :
  Forall (fun c => Ascii.eqb c stop = false) v -> take_until stop (v ++ stop :: r) = (v, stop :: r).
Proof.
  induction 1 as [|c v Hc _ IH]; simpl; [by rewrite Ascii.eqb_refl|]. by rewrite Hc, IH.
Qed.

(** A character of one class is not a given character of another. *)
Lemma eqb_false_of (f : ascii -> bool) (c d : ascii) :
  f c = true -> f d = false -> Ascii.eqb c d = false.
Proof. intros Hc Hd. destruct (Ascii.eqb_spec c d); congruence. Qed.

Lemma value_chars (s : string) (stop : ascii) :
  is_value s = true -> text_char stop = false ->
  Forall (fun c => Ascii.eqb c stop = false) (String.list_ascii_of_string s).
Proof.
  intros Hs Hstop. unfold is_value in Hs. apply List.Forall_forall. intros c Hc.
  eapply eqb_false_of; [|exact Hstop]. eapply forallb_forall in Hs; [exact Hs|exact Hc].
Qed.

Lemma after_name_attrs (attrs : list (string * string)) (r : list ascii) :
  after_name_ok (concat (map print_attr attrs) ++ ">"%char :: r).
Proof. by destruct attrs. Qed.

Lemma length_print_attrs (attrs : list (string * string)) :
  (length attrs <= length (concat (map print_attr attrs)))%nat.
Proof. induction attrs as [|a attrs IH]; simpl; [lia|]. rewrite length_app. simpl. lia. Qed.

(** ** The round trip *)

Lemma parse_attrs_print (attrs : list (string * string)) (f : nat) (r : list ascii) :
  forallb (fun a => is_name a.1 && is_value a.2) attrs = true -> (length attrs < f)%nat ->
  parse_attrs f (concat (map print_attr attrs) ++ ">"%char :: r) = Some (attrs, ">"%char :: r).
Proof.
  revert f. induction attrs as [|[n v] attrs IH]; intros f Hok Hf; destruct f as [|f]; try lia; [done|].
  simpl in Hok. apply andb_true_iff in Hok as [Hnv Hok]. apply andb_true_iff in Hnv as [Hn Hv].
  apply andb_true_iff in Hn as [_ Hn].
  cbn [map concat]. unfold print_attr at 1. cbn [fst snd app]. rewrite <-!app_assoc.
  cbn [app parse_attrs Ascii.eqb Bool.eqb]. rewrite take_name_app by done.
  cbn [strip_prefix]. rewrite !Ascii.eqb_refl, <-app_assoc. cbn [app].
  rewrite take_until_app by (apply value_chars; done).
  cbn [strip_prefix]. rewrite Ascii.eqb_refl, IH by (done || simpl in Hf; lia).
  by rewrite !String.string_of_list_ascii_of_string.
Qed.

(** A printed element starts with [<] and a name character, so it is
    neither a closing tag nor text. *)
Lemma print_xml_head (d : xml) :
  xml_wf d = true -> exists c r, print_xml_l d = "<"%char :: c :: r /\ name_char c = true.
Proof.
  destruct d as [t attrs kids|t s]; simpl; intros Hwf;
    repeat match goal with H : _ && _ = true |- _ => apply andb_true_iff in H as [? ?] end;
    match goal with H : is_name t = true |- _ =>
      unfold is_name in H; apply andb_true_iff in H as [Hne Hn] end;
    destruct (String.list_ascii_of_string t) as [|c r] eqn:Et;
    try (destruct t; simpl in *; congruence);
    simpl in Hn; apply andb_true_iff in Hn as [Hc _]; eauto.
Qed.

Lemma at_close_print (d : xml) (r : list ascii) :
  xml_wf d = true -> at_close (print_xml_l d ++ r) = false.
Proof.
  intros Hwf. destruct (print_xml_head d Hwf) as (c & r' & -> & Hc). simpl.
  by rewrite (eqb_false_of name_char c "/"%char Hc eq_refl).
Qed.

Lemma is_name_chars (t : string) :
  is_name t = true -> forallb name_char (String.list_ascii_of_string t) = true.
Proof. unfold is_name. by intros [_ ?]%andb_true_iff. Qed.

Lemma text_head (s : string) :
  String.eqb s "" = false -> is_value s = true ->
  exists c rs, String.list_ascii_of_string s = c :: rs /\ Ascii.eqb c "<"%char = false.
Proof.
  intros Hne Hv. destruct s as [|c rs]; [done|]. exists c, (String.list_ascii_of_string rs).
  split; [done|]. unfold is_value in Hv. simpl in Hv. apply andb_true_iff in Hv as [Hc _].
  exact (eqb_false_of text_char c "<"%char Hc eq_refl).
Qed.

Lemma at_close_cons (c : ascii) (x : list ascii) :
  Ascii.eqb c "<"%char = false -> at_close (c :: x) = false.
Proof. intros Hc. destruct x; simpl; [done|]. by rewrite Hc. Qed.

Lemma at_close_close (t : string) (r : list ascii) : at_close (close_tag t ++ r) = true.
Proof. done. Qed.

Lemma parse_node_print (d : xml) :
  xml_wf d = true -> forall f r, (xml_size d <= f)%nat -> parse_node f (print_xml_l d ++ r) = Some (d, r).
Proof.
  induction d as [t attrs kids IH|t s] using xml_ind'; intros Hwf f r Hf; destruct f as [|f];
    simpl in Hf; try lia; cbn [xml_wf] in Hwf.
  - apply andb_true_iff in Hwf as [Hwf Hkids]. apply andb_true_iff in Hwf as [Hwf _].
    apply andb_true_iff in Hwf as [Ht Hattrs].
    assert (Hnodes : forall f' r', at_close r' = true ->
              (sum_list (map (fun k => S (xml_size k)) kids) < f')%nat ->
              parse_nodes f' (concat (map print_xml_l kids) ++ r') = Some (kids, r')).
    { clear Hf. induction IH as [|k ks Hk _ IHks]; intros f' r' Hr' Hf'; destruct f' as [|f'];
        simpl in *; try lia; [by rewrite Hr'|].
      apply andb_true_iff in Hkids as [Hwk Hwks].
      rewrite <-app_assoc, at_close_print, Hk, IHks by (done || lia). done. }
    cbn [print_xml_l]. rewrite <-app_comm_cons, <-!app_assoc. cbn [app parse_node strip_prefix].
    rewrite Ascii.eqb_refl, take_name_app by (by apply is_name_chars || apply after_name_attrs).
    rewrite String.string_of_list_ascii_of_string, parse_attrs_print; cycle 1.
    { done. }
    { rewrite length_app. pose proof (length_print_attrs attrs). simpl. lia. }
    cbn [strip_prefix]. rewrite Ascii.eqb_refl.
    destruct kids as [|k ks].
    + cbn [map concat app]. rewrite at_close_close, strip_prefix_app. done.
    + apply andb_true_iff in Hkids as [Hwk _].
      specialize (Hnodes f (close_tag t ++ r) (at_close_close t r) ltac:(lia)).
      cbn [map concat] in Hnodes |- *. rewrite <-!app_assoc in Hnodes.
      rewrite <-!app_assoc.
      rewrite at_close_print, bool_decide_true, Hnodes by
        (done || by destruct (print_xml_head k Hwk) as (c & r' & -> & _)).
      cbn [bind]. by rewrite strip_prefix_app.
  - apply andb_true_iff in Hwf as [Hwf Hs]. apply andb_true_iff in Hwf as [Ht Hne].
    cbn [print_xml_l]. rewrite <-app_comm_cons, <-!app_assoc. cbn [app parse_node strip_prefix].
    rewrite Ascii.eqb_refl, take_name_app by (by apply is_name_chars || done).
    rewrite String.string_of_list_ascii_of_string. cbn [length parse_attrs].
    replace (Ascii.eqb ">"%char " "%char) with false by reflexivity.
    cbn [strip_prefix]. rewrite Ascii.eqb_refl, <-app_assoc.
    apply negb_true_iff in Hne.
    destruct (text_head s Hne Hs) as (c & rs & Hcs & Hc).
    rewrite Hcs. cbn [app]. rewrite at_close_cons by done.
    rewrite bool_decide_false by (simpl; intros [= ->]; by rewrite Ascii.eqb_refl in Hc).
    rewrite app_comm_cons, <-Hcs. unfold close_tag at 1. rewrite <-app_comm_cons.
    rewrite take_until_app by (apply value_chars; done).
    rewrite app_comm_cons. fold (close_tag t).
    cbn [bind]. rewrite String.string_of_list_ascii_of_string, strip_prefix_app. done.
Qed.

(** The printed text is longer than what the parser needs. *)
Lemma xml_size_print (d : xml) : (S (xml_size d) <= length (print_xml_l d))%nat.
Proof.
  induction d as [t attrs kids IH|t s] using xml_ind'; cbn [print_xml_l xml_size];
    unfold close_tag; rewrite ?length_app; cbn [length]; rewrite ?length_app; cbn [length];
    rewrite ?length_app; cbn [length]; [|lia].
  enough (sum_list (map (fun k => S (xml_size k)) kids) <= length (concat (map print_xml_l kids)))%nat
    by lia.
  induction IH as [|k ks Hk _ IHks]; simpl; [lia|]. rewrite length_app. lia.
Qed.

(** Round trip: the parser reads back every well-formed document. *)
Lemma parse_xml_print (d : xml) : xml_wf d = true -> parse_xml (print_xml d) = Some d.
Proof.
  intros Hwf. unfold parse_xml, print_xml. rewrite String.list_ascii_of_string_of_list_ascii.
  rewrite <-(app_nil_r (print_xml_l d)) at 2.
  rewrite parse_node_print; [done|done|]. pose proof (xml_size_print d). lia.
Qed.

(** The model parser keeps the promise of fast-xml-parser, with text
    kept as a string. *)
#[export] Instance model_parser_laws : @XmlParserLaws model_parser.
Proof.
  refine {| text_value := JStr |}. intros opts d _ _ Hwf. simpl.
  rewrite parse_xml_print by done. reflexivity.
Defined.
