(* ===== verification/Jackett.v ===== *)
(** * The class [Jackett] of [src/jackett.ts]

    State: the fields [url], [apiKey], [altUrl] and [requestUrl] set by
    the constructor from [Config.jackett] (lines 18 to 26), and the
    constant [parseOpts].  Operations: [mapToIndexer] (lines 67 to 81),
    the body of [get] once the response is parsed ([get_parsed], lines
    31 to 39) and [get] itself (lines 28 to 40): an asynchronous
    program that awaits one HTTP request.  The transport (axios) and
    the XML parser (fast-xml-parser) are the interfaces
    [HttpTransport] and [XmlParser] of [Async]; [get]'s theorems hold
    for every instance.  [mapToIndexer] and [get_parsed] respect the
    equivalence of parsed values of [JsEquiv].

    The specification side: [RawIndexerEntry] is an indexer entry of
    the spec with its decoder from parsed XML, [normalize] the record
    the spec asks for, [decode_response] the response of a service
    that reports no error, and [indexer_typed] the shape the
    signature of [get] promises of each record. *)

From Stdlib Require Import ZArith NArith Lia Ascii.
From stdpp Require Import base list strings.
From S2P Require Import Prelude JsNumber JsValue ParseInt JsEquiv Categories Indexer Async.

Local Open Scope js_scope.

(** ** The class *)

(** [parseOpts] *)
Definition parseOpts : ParseOptions :=
  {| attributeNamePrefix := ""; ignoreAttributes := false |}.

Record Jackett := {
  url : string;
  apiKey : string;
  altUrl : string;
  requestUrl : string
}.

(** [constructor()] *)
Definition new_Jackett (c : JackettConfig) : Jackett :=
  {| url := cfg_url c;
     altUrl := cfg_altUrl c;
     apiKey := cfg_apiKey c;
     requestUrl := cfg_url c +:+ "/api/v2.0/indexers/all/results/torznab/api?apikey="
                   +:+ cfg_apiKey c +:+ "&t=indexers&configured=true" |}.

(** [this.altUrl || this.url] *)
Definition base_url (j : Jackett) : string :=
  if truthy (JStr (altUrl j)) then altUrl j else url j.

(** [mapToIndexer(entry)]: the categories are computed first, then the
    constructor's arguments from left to right. *)
Definition mapToIndexer (j : Jackett) (entry : jsval) : res Indexer :=
  caps <- get_prop entry "caps" ;;
  cats <- get_prop caps "categories" ;;
  category <- get_prop cats "category" ;;
  categories <- parseCategories category ;;
  id <- get_prop entry "id" ;;
  title <- get_prop entry "title" ;;
  id_str <- to_string id ;;
  Ok {| idx_id := id;
        idx_priority := Finite false 0;
        idx_name := title;
        idx_protocol := "torrent";
        idx_categories := categories;
        idx_reserved := Finite false 0;
        idx_url := base_url j +:+ "/api/v2.0/indexers/" +:+ id_str +:+ "/results/torznab/";
        idx_apiKey := apiKey j |}.

(** The body of [get] after [parse(response.data, this.parseOpts)]. *)
Definition get_parsed (j : Jackett) (parsedXML : jsval) : res (list Indexer) :=
  err <- get_prop parsedXML "error" ;;
  if truthy err then
    desc <- get_prop err "description" ;;
    s <- to_string desc ;;
    Throw (Error ("Jackett: " +:+ s))
  else
    idxs <- get_prop parsedXML "indexers" ;;
    indexers <- get_prop idxs "indexer" ;;
    call_map "indexers.map" indexers (mapToIndexer j).

(** ** [get] *)

(** [async get()] *)
Definition get `{XmlParser} (j : Jackett) : Async (list Indexer) :=
  AwaitGet (requestUrl j) (fun response =>
    Done (data <- response ;; get_parsed j (xml_parse parseOpts data))).

(** ** The specification *)

(** An indexer entry of the torznab [indexers] document. *)
Record RawIndexerEntry := {
  entry_id : string;
  entry_title : jsval;
  entry_categories : list RawCategory
}.

(** [{id, title, caps: {categories: {category}}}] with a string
    identifier and decodable categories. *)
Definition decode_entry (v : jsval) : option RawIndexerEntry :=
  match v with
  | JObj ps =>
      match lookup_prop "id" ps, lookup_prop "caps" ps with
      | Some (JStr id), Some (JObj caps) =>
          match lookup_prop "categories" caps with
          | Some (JObj cats) =>
              cs ← decode_categories (default JUndefined (lookup_prop "category" cats));
              Some {| entry_id := id;
                      entry_title := default JUndefined (lookup_prop "title" ps);
                      entry_categories := cs |}
          | _ => None
          end
      | _, _ => None
      end
  | _ => None
  end.

(** A response with no error and an array of decodable entries. *)
Definition decode_response (v : jsval) : option (list RawIndexerEntry) :=
  match v with
  | JObj ps =>
      if truthy (default JUndefined (lookup_prop "error" ps)) then None
      else
        match lookup_prop "indexers" ps with
        | Some (JObj ips) =>
            match lookup_prop "indexer" ips with
            | Some (JArr es) => mapM decode_entry es
            | _ => None
            end
        | _ => None
        end
  | _ => None
  end.

(** How fast-xml-parser lays out an entry and the whole response: the
    [indexers] element holds no child (it parses to the empty string),
    one [indexer] (an object) or several (an array). *)
Definition encode_entry (e : RawIndexerEntry) : jsval :=
  JObj [("id", JStr (entry_id e)); ("title", entry_title e);
        ("caps", JObj [("categories", JObj [("category", encode_categories (entry_categories e))])])].

Definition encode_response (es : list RawIndexerEntry) : jsval :=
  JObj [("indexers",
         match xml_children (map encode_entry es) with
         | None => JStr ""
         | Some v => JObj [("indexer", v)]
         end)].

(** The endpoint of an indexer (spec, sec. 6): the alternate URL when
    it is not empty, the base URL otherwise, and the torznab path of
    the indexer. *)
Definition endpoint (c : JackettConfig) (id : string) : string :=
  (if String.eqb (cfg_altUrl c) "" then cfg_url c else cfg_altUrl c)
  +:+ "/api/v2.0/indexers/" +:+ id +:+ "/results/torznab/".

(** The record the spec asks for (sec. 4.2). *)
Definition normalize (c : JackettConfig) (e : RawIndexerEntry) : Indexer :=
  {| idx_id := JStr (entry_id e);
     idx_priority := Finite false 0;
     idx_name := entry_title e;
     idx_protocol := "torrent";
     idx_categories := flatten_categories (entry_categories e);
     idx_reserved := Finite false 0;
     idx_url := endpoint c (entry_id e);
     idx_apiKey := cfg_apiKey c |}.

(** The URL of the discovery request (spec, sec. 6). *)
Definition discovery_url (c : JackettConfig) : string :=
  cfg_url c +:+ "/api/v2.0/indexers/all/results/torznab/api?apikey=" +:+ cfg_apiKey c
  +:+ "&t=indexers&configured=true".

(** What the signature [get(): Promise<Indexer[]>] and the arguments
    of [new Indexer(...)] promise of a record built for [j]: its
    categories are numbers (NaN, an infinity or an integral double),
    priority and reserved field are +0, the protocol is "torrent", the
    key is [j]'s, and the endpoint is the torznab path of the printed
    identifier on [j]'s base. *)
Definition indexer_typed (j : Jackett) (i : Indexer) : bool :=
  forallb number_wf (idx_categories i) &&
  bool_decide (idx_priority i = Finite false 0 /\ idx_reserved i = Finite false 0) &&
  String.eqb (idx_protocol i) "torrent" && String.eqb (idx_apiKey i) (apiKey j) &&
  match to_string (idx_id i) with
  | Ok s => String.eqb (idx_url i) (base_url j +:+ "/api/v2.0/indexers/" +:+ s +:+ "/results/torznab/")
  | Throw _ => false
  end.

(** What [parsedXML.error.description] reads on a truthy [error]: the
    property of an element, undefined on a string, number or boolean. *)
Definition error_description (err : jsval) : jsval :=
  match err with
  | JObj ps => default JUndefined (lookup_prop "description" ps)
  | _ => JUndefined
  end.

(** ** Sample data for the witnesses *)

Definition sample_config : JackettConfig :=
  {| cfg_url := "http://h"; cfg_altUrl := ""; cfg_apiKey := "K" |}.
Definition alt_config : JackettConfig :=
  {| cfg_url := "http://h"; cfg_altUrl := "http://alt"; cfg_apiKey := "K" |}.

(** Indexer 5 with the categories of the spec's example. *)
Definition sample_entry : jsval :=
  JObj [("id", JStr "5"); ("configured", JStr "true"); ("title", JStr "Five");
        ("caps", JObj [("categories", JObj [("category", spec_example)])])].
Definition sample_raw : RawIndexerEntry :=
  {| entry_id := "5"; entry_title := JStr "Five"; entry_categories := spec_example_tree |}.
(** An indexer whose [categories] element is empty. *)
Definition bare_entry : jsval :=
  JObj [("id", JStr "7"); ("caps", JObj [("categories", JStr "")])].

Definition sample_response : jsval :=
  JObj [("indexers", JObj [("indexer", JArr [sample_entry])])].
Definition sample_transport : HttpTransport := {| http_get := fun _ => Ok "<indexers/>" |}.
Definition sample_parser : XmlParser := {| xml_parse := fun _ _ => sample_response |}.

Definition sample_raw2 : RawIndexerEntry :=
  {| entry_id := "9"; entry_title := JStr "Nine";
     entry_categories := [{| cat_id := "5000"; cat_subcats := ["5030"] |}] |}.

(** ** Lemmas *)

Lemma base_url_new (c : JackettConfig) :
  base_url (new_Jackett c) = if String.eqb (cfg_altUrl c) "" then cfg_url c else cfg_altUrl c.
Proof. unfold base_url. simpl. by destruct (String.eqb (cfg_altUrl c) ""). Qed.

(** Running [get] of a client built from [c]: the answer to the
    discovery request, parsed, then the body of [get]. *)
Lemma run_get `{HttpTransport} `{XmlParser} (c : JackettConfig) :
  run (get (new_Jackett c)) =
    (data <- http_get (discovery_url c) ;; get_parsed (new_Jackett c) (xml_parse parseOpts data)).
Proof. reflexivity. Qed.

(** A decodable entry becomes the record of the spec. *)
Lemma mapToIndexer_decoded (c : JackettConfig) (v : jsval) (e : RawIndexerEntry) :
  decode_entry v = Some e -> mapToIndexer (new_Jackett c) v = Ok (normalize c e).
Proof.
  destruct v as [| | | | | |ps]; try discriminate. simpl.
  destruct (lookup_prop "id" ps) as [[| | | |id| |]|] eqn:Hid; try discriminate;
  destruct (lookup_prop "caps" ps) as [[| | | | | |caps]|] eqn:Hcaps; try discriminate.
  destruct (lookup_prop "categories" caps) as [[| | | | | |cats]|] eqn:Hcats; try discriminate.
  destruct (decode_categories _) as [cs|] eqn:Hcs; simpl; [|discriminate].
  intros [= <-]. unfold mapToIndexer. simpl get_prop. rewrite Hcaps. simpl.
  rewrite Hcats. simpl. rewrite (parseCategories_decoded _ cs (decode_categories_Some _ _ Hcs)).
  simpl. rewrite Hid. simpl. unfold normalize, endpoint. simpl. by rewrite base_url_new.
Qed.

Lemma get_parsed_decoded (c : JackettConfig) (v : jsval) (es : list RawIndexerEntry) :
  decode_response v = Some es -> get_parsed (new_Jackett c) v = Ok (map (normalize c) es).
Proof.
  destruct v as [| | | | | |ps]; try discriminate. simpl.
  destruct (truthy (default JUndefined (lookup_prop "error" ps))) eqn:Herr; [discriminate|].
  destruct (lookup_prop "indexers" ps) as [[| | | | | |ips]|] eqn:Hi; try discriminate.
  destruct (lookup_prop "indexer" ips) as [[| | | | |l|]|] eqn:Hl; try discriminate.
  intros Hes%mapM_Some. unfold get_parsed. simpl get_prop. simpl bind. rewrite Herr.
  rewrite Hi. simpl. rewrite Hl. simpl. apply js_map_Forall2.
  eapply Forall2_impl; [done|]. intros x e Hx. by apply mapToIndexer_decoded.
Qed.

(** The body of [get] once no [error] is reported: read
    [parsedXML.indexers.indexer] and map it. *)
Lemma get_parsed_no_error (j : Jackett) (ps : list (string * jsval)) :
  truthy (default JUndefined (lookup_prop "error" ps)) = false ->
  get_parsed j (JObj ps) =
    (idxs <- get_prop (default JUndefined (lookup_prop "indexers" ps)) "indexer" ;;
     call_map "indexers.map" idxs (mapToIndexer j)).
Proof. intros Herr. unfold get_parsed. simpl. by rewrite Herr. Qed.

Lemma mapToIndexer_typed (j : Jackett) (x : jsval) (i : Indexer) :
  mapToIndexer j x = Ok i -> indexer_typed j i = true.
Proof.
  unfold mapToIndexer. intros H. decompose_bind H. injection H as <-.
  unfold indexer_typed. simpl.
  match goal with Hs : to_string _ = Ok _ |- _ => rewrite Hs end.
  rewrite !String.eqb_refl, !andb_true_r. apply forallb_forall, List.Forall_forall.
  match goal with Hl : parseCategories _ = Ok _ |- _ => by apply parseCategories_wf in Hl end.
Qed.

(** ** Responses up to the order of their elements *)

#[export] Instance mapToIndexer_proper (j : Jackett) : Proper ((≡) ==> (≡)) (mapToIndexer j).
Proof.
  intros x y Hxy. unfold mapToIndexer.
  apply bind_equiv; [by apply get_prop_proper|]. intros c1 c2 Hc.
  apply bind_equiv; [by apply get_prop_proper|]. intros d1 d2 Hd.
  apply bind_equiv; [by apply get_prop_proper|]. intros e1 e2 He.
  rewrite He. destruct (parseCategories e2); simpl; [|constructor].
  apply bind_equiv; [by apply get_prop_proper|]. intros i1 i2 Hi.
  apply bind_equiv; [by apply get_prop_proper|]. intros t1 t2 Ht.
  rewrite Hi. destruct (to_string i2); simpl; constructor. by split_and!.
Qed.

#[export] Instance get_parsed_proper (j : Jackett) : Proper ((≡) ==> (≡)) (get_parsed j).
Proof.
  intros v w Hvw. unfold get_parsed.
  apply bind_equiv; [by apply get_prop_proper|]. intros e1 e2 He.
  rewrite (truthy_proper e1 e2 He). destruct (truthy e2).
  - apply bind_equiv; [by apply get_prop_proper|]. intros d1 d2 Hd.
    rewrite (to_string_proper d1 d2 Hd). reflexivity.
  - apply bind_equiv; [by apply get_prop_proper|]. intros i1 i2 Hi.
    apply bind_equiv; [by apply get_prop_proper|]. intros x1 x2 Hx.
    apply res_Forall2_list_equiv, call_map_equiv; [done|]. apply mapToIndexer_proper.
Qed.

(** ** Properties *)

(** [C1] End to end: when the transport answers the discovery request
    with a document that the parser turns into a response with no error
    and an array of decodable indexer entries, [get] resolves to the
    spec's records of these entries, in the order of the response. *)
Theorem get_correct `{HttpTransport} `{XmlParser} (c : JackettConfig) (body : string)
    (es : list RawIndexerEntry) :
  http_get (discovery_url c) = Ok body ->
  decode_response (xml_parse parseOpts body) = Some es ->
  run (get (new_Jackett c)) = Ok (map (normalize c) es).
Proof.
  intros Hget Hdec. rewrite run_get, Hget. by apply get_parsed_decoded.
Qed.

(** [C3] A response carrying an [error] element makes [get] throw an
    [Error] whose message is "Jackett: " followed by the service's
    description, whatever else the response holds. *)
Theorem get_parsed_error (j : Jackett) (ps eps : list (string * jsval)) (d : string) :
  lookup_prop "error" ps = Some (JObj eps) -> lookup_prop "description" eps = Some (JStr d) ->
  get_parsed j (JObj ps) = Throw (Error ("Jackett: " +:+ d)).
Proof. intros He Hd. unfold get_parsed. simpl. rewrite He. simpl. by rewrite Hd. Qed.

(** [C5] Entry mapping: a decodable entry becomes the record of the
    spec: identifier and title copied, priority and reserved field 0,
    protocol "torrent", the flattened categories, the endpoint on the
    alternate URL when it is set and on the base URL otherwise, and
    the API key. *)
Theorem mapToIndexer_refines (c : JackettConfig) (v : jsval) (e : RawIndexerEntry) :
  decode_entry v = Some e -> mapToIndexer (new_Jackett c) v = Ok (normalize c e).
Proof. apply mapToIndexer_decoded. Qed.

(** [C8] All or nothing: on a response with no error and an array of
    entries, [get] throws [e] exactly when some entry's mapping throws
    [e] after every entry before it was mapped; it then returns no
    partial list. *)
Theorem get_parsed_first_error (j : Jackett) (ps ips : list (string * jsval))
    (es : list jsval) (e : exn) :
  truthy (default JUndefined (lookup_prop "error" ps)) = false ->
  lookup_prop "indexers" ps = Some (JObj ips) ->
  lookup_prop "indexer" ips = Some (JArr es) ->
  get_parsed j (JObj ps) = Throw e <->
  exists es1 x es2 rs, es = es1 ++ x :: es2 /\
    js_map (mapToIndexer j) es1 = Ok rs /\ mapToIndexer j x = Throw e.
Proof.
  intros Herr Hi Hl. rewrite get_parsed_no_error, Hi by done. simpl. rewrite Hl. simpl.
  split.
  - apply js_map_Throw_inv.
  - intros (es1 & x & es2 & rs & -> & H1 & Hx). by eapply js_map_app_Throw.
Qed.

(** [C9] When Jackett has exactly one indexer configured, the parser
    yields the entry as an object, not an array, and [get] throws a
    TypeError ([indexers.map] is not a function) instead of returning
    that indexer. *)
Theorem get_parsed_single_indexer (j : Jackett) (ps ips one : list (string * jsval)) :
  truthy (default JUndefined (lookup_prop "error" ps)) = false ->
  lookup_prop "indexers" ps = Some (JObj ips) ->
  lookup_prop "indexer" ips = Some (JObj one) ->
  get_parsed j (JObj ps) = Throw (TypeError (NotAFunction "indexers.map")).
Proof. intros Herr Hi Hl. rewrite get_parsed_no_error, Hi by done. simpl. by rewrite Hl. Qed.

(** [C10] When Jackett has no indexer configured, the [indexers]
    element is empty and parses to the empty string; [get] throws a
    TypeError (reading [map] of undefined) instead of returning an
    empty list. *)
Theorem get_parsed_no_indexers (j : Jackett) (ps : list (string * jsval)) :
  truthy (default JUndefined (lookup_prop "error" ps)) = false ->
  lookup_prop "indexers" ps = Some (JStr "") ->
  get_parsed j (JObj ps) = Throw (TypeError (CannotReadProperty NUndefined "map")).
Proof. intros Herr Hi. rewrite get_parsed_no_error, Hi by done. done. Qed.

(** [C13] [get] issues exactly one request, to the discovery URL of
    the spec built from the base URL and the API key, and a rejected
    request rejects [get] with the same error. *)
Theorem get_requests `{HttpTransport} `{XmlParser} (c : JackettConfig) :
  requests (get (new_Jackett c)) = [discovery_url c] /\
  forall e, http_get (discovery_url c) = Throw e -> run (get (new_Jackett c)) = Throw e.
Proof.
  split.
  - unfold get. cbn [requests]. done.
  - intros e He. by rewrite run_get, He.
Qed.

(** [C14] An indexer whose [categories] element is empty (it parses to
    the empty string) makes [mapToIndexer] throw: [category] is then
    undefined, and [parseCategories] reads [id] of undefined. *)
Theorem mapToIndexer_no_categories (j : Jackett) (ps caps : list (string * jsval)) :
  lookup_prop "caps" ps = Some (JObj caps) -> lookup_prop "categories" caps = Some (JStr "") ->
  mapToIndexer j (JObj ps) = Throw (TypeError (CannotReadProperty NUndefined "id")).
Proof. intros Hc Hcat. unfold mapToIndexer. simpl. rewrite Hc. simpl. by rewrite Hcat. Qed.

(** ** Witnesses *)

Lemma get_correct_witness :
  @http_get sample_transport (discovery_url sample_config) = Ok "<indexers/>" /\
  decode_response (@xml_parse sample_parser parseOpts "<indexers/>") = Some [sample_raw] /\
  @run sample_transport _ (@get sample_parser (new_Jackett sample_config))
    = Ok [normalize sample_config sample_raw].
Proof.
  split_and!; [reflexivity|reflexivity|].
  exact (@get_correct sample_transport sample_parser sample_config "<indexers/>" [sample_raw]
           eq_refl eq_refl).
Defined.

Lemma get_parsed_error_witness :
  get_parsed (new_Jackett sample_config)
    (JObj [("error", JObj [("code", JStr "100"); ("description", JStr "Invalid API Key")])])
  = Throw (Error "Jackett: Invalid API Key").
Proof. by apply get_parsed_error with (eps := [("code", JStr "100"); ("description", JStr "Invalid API Key")]). Defined.

(** The endpoints of the spec's example: on the base URL when no
    alternate URL is set, on the alternate URL otherwise. *)
Lemma mapToIndexer_refines_witness :
  mapToIndexer (new_Jackett sample_config) sample_entry = Ok (normalize sample_config sample_raw) /\
  idx_url (normalize sample_config sample_raw) = "http://h/api/v2.0/indexers/5/results/torznab/" /\
  mapToIndexer (new_Jackett alt_config) sample_entry = Ok (normalize alt_config sample_raw) /\
  idx_url (normalize alt_config sample_raw) = "http://alt/api/v2.0/indexers/5/results/torznab/".
Proof.
  split_and!; [apply mapToIndexer_refines; reflexivity|reflexivity
              |apply mapToIndexer_refines; reflexivity|reflexivity].
Defined.

Lemma get_parsed_first_error_witness :
  get_parsed (new_Jackett sample_config)
    (JObj [("indexers", JObj [("indexer", JArr [sample_entry; bare_entry])])])
  = Throw (TypeError (CannotReadProperty NUndefined "id")).
Proof.
  apply (get_parsed_first_error (new_Jackett sample_config)
           [("indexers", JObj [("indexer", JArr [sample_entry; bare_entry])])]
           [("indexer", JArr [sample_entry; bare_entry])] [sample_entry; bare_entry]
           _ eq_refl eq_refl eq_refl).
  exists [sample_entry], bare_entry, [], [normalize sample_config sample_raw].
  split_and!; reflexivity.
Defined.

Lemma get_parsed_single_indexer_witness :
  get_parsed (new_Jackett sample_config) (JObj [("indexers", JObj [("indexer", sample_entry)])])
  = Throw (TypeError (NotAFunction "indexers.map")).
Proof.
  apply get_parsed_single_indexer with (ips := [("indexer", sample_entry)])
    (one := [("id", JStr "5"); ("configured", JStr "true"); ("title", JStr "Five");
             ("caps", JObj [("categories", JObj [("category", spec_example)])])]);
    reflexivity.
Defined.

Lemma get_parsed_no_indexers_witness :
  get_parsed (new_Jackett sample_config) (JObj [("indexers", JStr "")])
  = Throw (TypeError (CannotReadProperty NUndefined "map")).
Proof. by apply get_parsed_no_indexers. Defined.

Lemma mapToIndexer_no_categories_witness :
  mapToIndexer (new_Jackett sample_config) bare_entry
  = Throw (TypeError (CannotReadProperty NUndefined "id")).
Proof. by apply mapToIndexer_no_categories with (caps := [("categories", JStr "")]). Defined.

(** ** Responses as fast-xml-parser lays them out *)

Lemma decode_encode_entry (e : RawIndexerEntry) :
  entry_categories e <> [] -> decode_entry (encode_entry e) = Some e.
Proof.
  intros Hne. destruct e as [id title cs]. unfold encode_entry, decode_entry. simpl.
  rewrite (decode_encode_categories cs Hne). done.
Qed.

Lemma decode_encode_response (es : list RawIndexerEntry) :
  (2 <= length es)%nat -> Forall (fun e => entry_categories e <> []) es ->
  decode_response (encode_response es) = Some es.
Proof.
  intros Hlen Hcs. destruct es as [|e1 [|e2 es]]; simpl in Hlen; [lia|lia|].
  unfold encode_response.
  change (xml_children (map encode_entry (e1 :: e2 :: es)))
    with (Some (JArr (map encode_entry (e1 :: e2 :: es)))).
  change (decode_response (JObj [("indexers", JObj [("indexer",
            JArr (map encode_entry (e1 :: e2 :: es)))])]))
    with (mapM decode_entry (map encode_entry (e1 :: e2 :: es))).
  apply mapM_Some, Forall2_fmap_l, Forall_Forall2_diag.
  eapply Forall_impl; [done|]. intros e He. by apply decode_encode_entry.
Qed.

(** [C16] On every response laid out the way fast-xml-parser lays it
    out (entries with at least one category), [get] succeeds exactly
    when Jackett reports two indexers or more: with none it throws the
    TypeError of reading [map] of undefined, with one the TypeError
    [indexers.map is not a function]. *)
Theorem get_parsed_encoded (c : JackettConfig) (es : list RawIndexerEntry) :
  Forall (fun e => entry_categories e <> []) es ->
  get_parsed (new_Jackett c) (encode_response es) =
    match es with
    | [] => Throw (TypeError (CannotReadProperty NUndefined "map"))
    | [_] => Throw (TypeError (NotAFunction "indexers.map"))
    | _ => Ok (map (normalize c) es)
    end.
Proof.
  intros Hcs. destruct es as [|e1 [|e2 es]]; [reflexivity|reflexivity|].
  apply get_parsed_decoded, decode_encode_response; [simpl; lia|done].
Qed.

(** [C17] A response with no [indexers] element whose [error] is absent
    or falsy (an empty [error] element parses to the empty string) is
    not reported as a service error: [get] throws the TypeError of
    reading [indexer] of undefined. *)
Theorem get_parsed_malformed (j : Jackett) (ps : list (string * jsval)) :
  truthy (default JUndefined (lookup_prop "error" ps)) = false ->
  lookup_prop "indexers" ps = None ->
  get_parsed j (JObj ps) = Throw (TypeError (CannotReadProperty NUndefined "indexer")).
Proof. intros Herr Hi. rewrite get_parsed_no_error, Hi by done. done. Qed.

Lemma get_parsed_encoded_witness :
  Forall (fun e => entry_categories e <> []) [sample_raw] /\
  get_parsed (new_Jackett sample_config) (encode_response [sample_raw])
    = Throw (TypeError (NotAFunction "indexers.map")) /\
  get_parsed (new_Jackett sample_config) (encode_response [sample_raw; sample_raw2])
    = Ok [normalize sample_config sample_raw; normalize sample_config sample_raw2].
Proof.
  split_and!; [repeat constructor; discriminate| |].
  - exact (get_parsed_encoded sample_config [sample_raw] ltac:(repeat constructor; discriminate)).
  - exact (get_parsed_encoded sample_config [sample_raw; sample_raw2]
             ltac:(repeat constructor; discriminate)).
Defined.

(** The empty [<error/>] element of a response. *)
Lemma get_parsed_malformed_witness :
  get_parsed (new_Jackett sample_config) (JObj [("error", JStr "")])
  = Throw (TypeError (CannotReadProperty NUndefined "indexer")).
Proof. by apply get_parsed_malformed. Defined.

(** [C15] Type: every record [get] returns has the shape its signature
    and the constructor's arguments promise: numeric categories that
    are doubles, priority and reserved field +0, protocol "torrent",
    the client's API key, and the endpoint built from the printed
    identifier. *)
Theorem get_parsed_typed (j : Jackett) (v : jsval) (out : list Indexer) :
  get_parsed j v = Ok out -> Forall (fun i => indexer_typed j i = true) out.
Proof.
  unfold get_parsed. intros H. apply bind_Ok in H as (err & _ & H).
  destruct (truthy err); decompose_bind H; [discriminate|].
  match type of H with call_map _ ?x _ = _ => destruct x; try discriminate end.
  by eapply js_map_Forall; [apply mapToIndexer_typed|].
Qed.

Lemma get_parsed_typed_witness :
  get_parsed (new_Jackett sample_config) sample_response = Ok [normalize sample_config sample_raw] /\
  Forall (fun i => indexer_typed (new_Jackett sample_config) i = true)
    [normalize sample_config sample_raw].
Proof.
  split; [reflexivity|]. apply (get_parsed_typed _ sample_response). reflexivity.
Defined.

(** [C19] Service errors, whatever the [error] element holds: when the
    response's [error] is truthy, [get] never returns a list and never
    reads [indexers]; it throws an [Error] whose message is "Jackett: "
    followed by ToString of the element's [description] ("undefined"
    when it has none), and when that conversion throws (a description
    element with a [toString] child), it throws that exception. *)
Theorem get_parsed_service_error (j : Jackett) (v err : jsval) :
  get_prop v "error" = Ok err -> truthy err = true ->
  get_parsed j v = match to_string (error_description err) with
                   | Ok s => Throw (Error ("Jackett: " +:+ s))
                   | Throw e => Throw e
                   end.
Proof.
  intros Herr Ht. unfold get_parsed. rewrite Herr. simpl. rewrite Ht.
  destruct err; try discriminate; simpl; repeat case_match; done.
Qed.

(** An [error] element with a code and no description, and one with
    a description. *)
Lemma get_parsed_service_error_witness :
  get_parsed (new_Jackett sample_config) (JObj [("error", JObj [("code", JStr "100")])])
  = Throw (Error "Jackett: undefined") /\
  get_parsed (new_Jackett sample_config)
    (JObj [("error", JObj [("code", JStr "100"); ("description", JStr "Invalid API Key")])])
  = Throw (Error "Jackett: Invalid API Key").
Proof.
  split.
  - by apply (get_parsed_service_error _ _ (JObj [("code", JStr "100")])).
  - by apply (get_parsed_service_error _ _
                (JObj [("code", JStr "100"); ("description", JStr "Invalid API Key")])).
Defined.
