(* ===== verification/Documents.v ===== *)
(** * [get] on the documents Jackett sends

    The composition of the three collaborators of [get]: the transport
    answers the discovery request with the text of a torznab document,
    the parser keeps the promise of [XmlParserLaws], and [get_parsed]
    reads the result.  The documents are the ones the spec describes
    (sec. 6): an [indexers] element with one [indexer] element per
    configured indexer, whose [id] attribute, [title] text and
    [caps/categories/category] elements (with [subcat] children) the
    client reads, next to any other attributes ([configured], ...) and
    child elements ([description], [link], ...) of other names; or an
    [error] element with [code] and [description] attributes.

    The theorems hold for every transport and every parser that keeps
    the promise, whatever it does with element text ([text_value]);
    [XmlParse] gives one such parser, which the witnesses use. *)

From Stdlib Require Import Ascii.
From stdpp Require Import base list strings sets.
From S2P Require Import Prelude JsNumber JsValue ParseInt JsEquiv Categories Indexer Async Xml XmlParse Jackett.

Local Open Scope js_scope.

(** ** The documents *)

Definition subcat_xml (s : string) : xml := XElem "subcat" [("id", s)] [].

Definition category_xml (c : RawCategory) : xml :=
  XElem "category" [("id", cat_id c)] (map subcat_xml (cat_subcats c)).

(** An indexer as its document describes it: the identifier, the text
    of the title, the categories, and the other attributes and child
    elements, which the client does not read. *)
Record IndexerDoc := {
  doc_id : string;
  doc_title : string;
  doc_categories : list RawCategory;
  doc_attrs : list (string * string);
  doc_extra : list xml
}.

Definition indexer_xml (d : IndexerDoc) : xml :=
  XElem "indexer" (("id", doc_id d) :: doc_attrs d)
    (XText "title" (doc_title d) :: doc_extra d ++
     [XElem "caps" [] [XElem "categories" [] (map category_xml (doc_categories d))]]).

Definition indexers_xml (ds : list IndexerDoc) : xml := XElem "indexers" [] (map indexer_xml ds).

Definition error_xml (code description : string) : xml :=
  XElem "error" [("code", code); ("description", description)] [].

(** The documents the theorems are about: at least one category, and
    no other child element named like the ones the client reads. *)
Definition doc_ok (d : IndexerDoc) : bool :=
  negb (bool_decide (doc_categories d = [])) &&
  forallb (fun x => negb (bool_decide (xml_tag x ∈ ["id"; "title"; "caps"]))) (doc_extra d).

(** The entry of the spec a document describes, its title as the parser
    gives it. *)
Definition to_raw (text_value : string -> jsval) (d : IndexerDoc) : RawIndexerEntry :=
  {| entry_id := doc_id d; entry_title := text_value (doc_title d);
     entry_categories := doc_categories d |}.

(** ** Sample data for the witnesses *)

(** A transport that answers every request with the text of [d]. *)
Definition doc_transport (d : xml) : HttpTransport := {| http_get _ := Ok (print_xml d) |}.

(** Indexer 5 with the categories of the spec's example, its
    [configured] attribute and two other child elements. *)
Definition sample_doc : IndexerDoc :=
  {| doc_id := "5"; doc_title := "Five"; doc_categories := spec_example_tree;
     doc_attrs := [("configured", "true")];
     doc_extra := [XText "description" "An indexer"; XText "link" "http://five.example/"] |}.

Definition sample_doc2 : IndexerDoc :=
  {| doc_id := "9"; doc_title := "Nine";
     doc_categories := [{| cat_id := "5000"; cat_subcats := ["5030"] |}];
     doc_attrs := []; doc_extra := [] |}.

(** ** The layout of the documents *)

Section Layout.
Context (tv : string -> jsval).

Lemma children_same_tag {A} (t : string) (f : A -> xml) (l : list A) :
  (forall x, xml_tag (f x) = t) ->
  map (fun x => (xml_tag x, xml_value tv x)) (map f l) = map (fun v => (t, v)) (map (fun x => xml_value tv (f x)) l).
Proof. intros Ht. induction l as [|x l IH]; simpl; [done|]. by rewrite Ht, IH. Qed.

Lemma xml_value_category (c : RawCategory) : xml_value tv (category_xml c) ≡ encode_category c.
Proof.
  destruct c as [id ss]. unfold category_xml, encode_category. cbn [cat_id cat_subcats].
  rewrite xml_value_elem by (left; done). rewrite (children_same_tag "subcat") by done.
  change (fun x => xml_value tv (subcat_xml x)) with encode_node.
  destruct ss as [|s ss]; [reflexivity|].
  rewrite group_children_same by (simpl; congruence). simpl.
  apply JObj_equiv_perm; [refine (bool_decide_unpack _ _); vm_compute; exact I|]. destruct (map encode_node ss); apply Permutation_swap.
Qed.

(** The [categories] element of a non-empty list: one [category]
    property, equivalent to the spec's encoding. *)
Lemma xml_value_categories (cs : list RawCategory) :
  cs <> [] ->
  exists cv, xml_value tv (XElem "categories" [] (map category_xml cs)) = JObj [("category", cv)] /\
             cv ≡ encode_categories cs.
Proof.
  intros Hne. destruct cs as [|c cs]; [done|].
  eexists. split.
  - rewrite xml_value_elem by (right; done). rewrite (children_same_tag "category") by done.
    rewrite group_children_same by (simpl; congruence). reflexivity.
  - apply xml_children_equiv. apply Forall2_fmap_l, Forall2_fmap_r.
    apply Forall_Forall2_diag, Forall_forall. intros x _. apply xml_value_category.
Qed.

(** No other child is named like one the client reads. *)
Lemma extra_tags (extra : list xml) (k : string) :
  forallb (fun x => negb (bool_decide (xml_tag x ∈ ["id"; "title"; "caps"]))) extra = true ->
  k ∈ ["id"; "title"; "caps"] -> k ∉ (map (fun c => (xml_tag c, xml_value tv c)) extra).*1.
Proof.
  intros Hex Hk. induction extra as [|x extra IH]; simpl in *; [set_solver|].
  apply andb_true_iff in Hex as [Hx Hex]. apply negb_true_iff, bool_decide_eq_false in Hx.
  rewrite elem_of_cons. intros [->|Hin]; [done|]. by apply IH.
Qed.

Lemma lookup_prop_group_one (k : string) (v : jsval) :
  lookup_prop k (group_children [(k, v)]) = Some v.
Proof. exact (lookup_prop_group_single k v [] [] ltac:(set_solver)). Qed.

(** An indexer element decodes to the entry of the spec it describes. *)
Lemma decode_entry_doc (d : IndexerDoc) :
  doc_ok d = true -> decode_entry (xml_value tv (indexer_xml d)) = Some (to_raw tv d).
Proof.
  destruct d as [id t cs attrs extra]. unfold doc_ok, indexer_xml, to_raw. cbn [doc_id doc_title
    doc_categories doc_attrs doc_extra].
  intros [Hcs Hex]%andb_true_iff. apply negb_true_iff, bool_decide_eq_false in Hcs.
  rewrite xml_value_elem by (left; discriminate).
  set (EP := map (fun c => (xml_tag c, xml_value tv c)) extra).
  set (caps := XElem "caps" [] [XElem "categories" [] (map category_xml cs)]).
  assert (HP : map (fun c => (xml_tag c, xml_value tv c)) (XText "title" t :: extra ++ [caps])
               = [] ++ ("title", tv t) :: (EP ++ [("caps", xml_value tv caps)]))
    by (simpl; by rewrite map_app).
  assert (HP' : [] ++ ("title", tv t) :: (EP ++ [("caps", xml_value tv caps)])
                = (("title", tv t) :: EP) ++ ("caps", xml_value tv caps) :: []) by reflexivity.
  pose proof (extra_tags extra "id" Hex ltac:(set_solver)) as Hid.
  pose proof (extra_tags extra "title" Hex ltac:(set_solver)) as Htitle.
  pose proof (extra_tags extra "caps" Hex ltac:(set_solver)) as Hcaps.
  fold EP in Hid, Htitle, Hcaps.
  destruct (xml_value_categories cs Hcs) as (cv & Hcv & Hequiv).
  assert (Hcapsv : xml_value tv caps = JObj (group_children [("categories", JObj [("category", cv)])] ++ []))
    by (unfold caps; rewrite xml_value_elem by (right; discriminate); cbn [map xml_tag]; by rewrite Hcv).
  clearbody EP caps. unfold decode_entry. rewrite HP, !lookup_prop_app.
  rewrite lookup_prop_group_absent by (simpl; rewrite fmap_app; simpl; set_solver).
  rewrite HP', lookup_prop_group_single by (simpl; rewrite ?fmap_app; simpl; set_solver).
  rewrite <-HP', lookup_prop_group_single by (simpl; rewrite ?fmap_app; simpl; set_solver).
  rewrite Hcapsv, lookup_prop_app, lookup_prop_group_one. cbn [attr_props map lookup_prop fst snd].
  rewrite String.eqb_refl. simpl default.
  rewrite (decode_categories_proper _ _ Hequiv), decode_encode_categories by done. done.
Qed.

(** The [indexers] element of a non-empty list: one [indexer]
    property. *)
Lemma xml_value_indexers (ds : list IndexerDoc) :
  ds <> [] ->
  xml_value tv (indexers_xml ds) =
    JObj ([("indexer", default JUndefined (xml_children (map (fun d => xml_value tv (indexer_xml d)) ds)))] ++ []).
Proof.
  intros Hne. unfold indexers_xml. rewrite xml_value_elem by (right; by destruct ds).
  rewrite (children_same_tag "indexer") by done.
  rewrite group_children_same by (by destruct ds). done.
Qed.

Lemma xml_value_indexer_obj (d : IndexerDoc) : exists ps, xml_value tv (indexer_xml d) = JObj ps.
Proof. unfold indexer_xml. rewrite xml_value_elem by (left; discriminate). eauto. Qed.

(** A document with two indexers or more decodes to their entries. *)
Lemma decode_response_docs (ds : list IndexerDoc) :
  forallb doc_ok ds = true -> (2 <= length ds)%nat ->
  decode_response (JObj [("indexers", xml_value tv (indexers_xml ds))]) = Some (map (to_raw tv) ds).
Proof.
  intros Hok Hlen. rewrite xml_value_indexers by (destruct ds; simpl in *; [lia|done]).
  destruct ds as [|d1 [|d2 ds]]; simpl in Hlen; try lia.
  change (decode_response (JObj [("indexers", JObj ([("indexer",
            JArr (map (fun d => xml_value tv (indexer_xml d)) (d1 :: d2 :: ds)))] ++ []))]))
    with (mapM decode_entry (map (fun d => xml_value tv (indexer_xml d)) (d1 :: d2 :: ds))).
  apply mapM_Some, Forall2_fmap, Forall_Forall2_diag.
  apply List.Forall_forall. intros d Hd. apply decode_entry_doc.
  eapply forallb_forall in Hok; [exact Hok|exact Hd].
Qed.

End Layout.

(** ** [get] end to end *)

(** [C20] Composition: when the transport answers the discovery request
    with a torznab [indexers] document (indexers with at least one
    category, any other attributes and child elements of other names)
    and the parser keeps the promise of fast-xml-parser, [get]
    resolves to the spec's records of the indexers, in document order,
    when there are two or more; with one it throws the TypeError
    [indexers.map is not a function], with none the TypeError of
    reading [map] of undefined. *)
Theorem get_document `{HttpTransport} `{XmlParser} `{!XmlParserLaws} (c : JackettConfig)
    (ds : list IndexerDoc) :
  xml_wf (indexers_xml ds) = true -> forallb doc_ok ds = true ->
  http_get (discovery_url c) = Ok (print_xml (indexers_xml ds)) ->
  run (get (new_Jackett c)) ≡
    match ds with
    | [] => Throw (TypeError (CannotReadProperty NUndefined "map"))
    | [_] => Throw (TypeError (NotAFunction "indexers.map"))
    | _ => Ok (map (fun d => normalize c (to_raw text_value d)) ds)
    end.
Proof.
  intros Hwf Hok Hget. rewrite run_get, Hget. cbn [bind].
  rewrite (parse_document parseOpts (indexers_xml ds) eq_refl eq_refl Hwf).
  destruct ds as [|d1 [|d2 ds]].
  - reflexivity.
  - rewrite xml_value_indexers by done. cbn [map xml_children default].
    destruct (xml_value_indexer_obj text_value d1) as [ps ->].
    rewrite get_parsed_no_error by done. reflexivity.
  - rewrite (get_parsed_decoded c _ (map (to_raw text_value) (d1 :: d2 :: ds)))
      by (apply decode_response_docs; [done|simpl; lia]).
    rewrite map_map. reflexivity.
Qed.

(** [C21] Composition on the error path: when the transport answers
    with Jackett's [error] element, [get] throws the [Error] whose
    message is "Jackett: " followed by the [description] attribute,
    whatever the parser does with text. *)
Theorem get_error_document `{HttpTransport} `{XmlParser} `{!XmlParserLaws} (c : JackettConfig)
    (code description : string) :
  xml_wf (error_xml code description) = true ->
  http_get (discovery_url c) = Ok (print_xml (error_xml code description)) ->
  run (get (new_Jackett c)) = Throw (Error ("Jackett: " +:+ description)).
Proof.
  intros Hwf Hget. rewrite run_get, Hget. cbn [bind]. apply res_equiv_Throw.
  rewrite (parse_document parseOpts (error_xml code description) eq_refl eq_refl Hwf).
  reflexivity.
Qed.

(** ** Witnesses *)

Lemma get_document_witness :
  xml_wf (indexers_xml [sample_doc; sample_doc2]) = true /\
  forallb doc_ok [sample_doc; sample_doc2] = true /\
  @run (doc_transport (indexers_xml [sample_doc; sample_doc2])) _
    (@get model_parser (new_Jackett sample_config))
  ≡ Ok [normalize sample_config (to_raw JStr sample_doc); normalize sample_config (to_raw JStr sample_doc2)].
Proof.
  split_and!; [vm_compute; reflexivity|vm_compute; reflexivity|].
  apply (@get_document (doc_transport (indexers_xml [sample_doc; sample_doc2])) model_parser
           model_parser_laws sample_config [sample_doc; sample_doc2]);
    [vm_compute; reflexivity|vm_compute; reflexivity|reflexivity].
Defined.

Lemma get_error_document_witness :
  xml_wf (error_xml "100" "Invalid API Key") = true /\
  @run (doc_transport (error_xml "100" "Invalid API Key")) _
    (@get model_parser (new_Jackett sample_config))
  = Throw (Error "Jackett: Invalid API Key").
Proof.
  split; [vm_compute; reflexivity|].
  apply (@get_error_document (doc_transport (error_xml "100" "Invalid API Key")) model_parser
           model_parser_laws sample_config "100" "Invalid API Key");
    [vm_compute; reflexivity|reflexivity].
Defined.

