(* ===== verification/Urls.v ===== *)
(** * What the server reads from the URLs the client builds

    The class builds two URLs by template literals: the discovery URL
    [requestUrl] in the constructor ([src/jackett.ts], line 25) and the
    endpoint of every indexer in [mapToIndexer] (line 78).  Neither
    escapes what it interpolates.  This file states what a server reads
    back from them, through a reader of URLs following the WHATWG URL
    standard: the fragment starts at the first [#], the query at the
    first [?] before it, path segments are separated by [/], and the
    query is read as [application/x-www-form-urlencoded] (split on
    [&], name and value split at the first [=], [+] read as a space,
    [%XY] read as the byte [XY]).  Strings are 8-bit code units, read
    as bytes.

    The theorems show that the API key is read back as the [apikey]
    parameter and the identifier as the fourth path segment after the
    base, when they hold no separator, and what the server reads when
    they do. *)

From Stdlib Require Import Ascii.
From stdpp Require Import base list strings.
From S2P Require Import Prelude JsNumber JsValue Indexer Jackett.

Local Open Scope js_scope.

(** ** Splitting strings *)

(** [c] does not occur in [s]. *)
Definition no_char (c : ascii) (s : string) : bool :=
  negb (existsb (Ascii.eqb c) (String.list_ascii_of_string s)).

(** The pieces of [s] between the occurrences of [sep]. *)
Fixpoint split_on (sep : ascii) (s : string) : list string :=
  match s with
  | EmptyString => [""]
  | String c s' =>
      if Ascii.eqb c sep then "" :: split_on sep s'
      else match split_on sep s' with
           | x :: xs => String c x :: xs
           | [] => [String c ""]
           end
  end.

(** [s] cut at the first [sep]: what comes before, and what comes
    after when [sep] occurs. *)
Fixpoint break_at (sep : ascii) (s : string) : string * option string :=
  match s with
  | EmptyString => ("", None)
  | String c s' =>
      if Ascii.eqb c sep then ("", Some s')
      else let '(a, b) := break_at sep s' in (String c a, b)
  end.

(** ** Reading a URL *)

(** The URL without its fragment. *)
Definition url_no_fragment (u : string) : string := (break_at "#" u).1.

(** Scheme, authority and path: everything before the query. *)
Definition url_path (u : string) : string := (break_at "?" (url_no_fragment u)).1.

(** The query, when the URL has one. *)
Definition url_query (u : string) : option string := (break_at "?" (url_no_fragment u)).2.

(** [%XY] with two hexadecimal digits. *)
Definition hex_value (c : ascii) : option nat :=
  let n := nat_of_ascii c in
  if (48 <=? n) && (n <=? 57) then Some (n - 48)
  else if (65 <=? n) && (n <=? 70) then Some (n - 55)
  else if (97 <=? n) && (n <=? 102) then Some (n - 87)
  else None.

Fixpoint percent_decode (l : list ascii) : list ascii :=
  match l with
  | [] => []
  | c :: rest =>
      if Ascii.eqb c "%" then
        match rest with
        | h :: l' :: rest' =>
            match hex_value h, hex_value l' with
            | Some a, Some b => ascii_of_nat (16 * a + b) :: percent_decode rest'
            | _, _ => c :: percent_decode rest
            end
        | _ => c :: percent_decode rest
        end
      else c :: percent_decode rest
  end.

Definition plus_to_space (c : ascii) : ascii := if Ascii.eqb c "+" then " "%char else c.

(** A name or a value of the query. *)
Definition form_decode (s : string) : string :=
  String.string_of_list_ascii (percent_decode (map plus_to_space (String.list_ascii_of_string s))).

(** One [name=value] sequence; a sequence with no [=] has the empty
    value. *)
Definition form_pair (seq : string) : string * string :=
  let '(n, v) := break_at "=" seq in (form_decode n, form_decode (default "" v)).

(** The parameters of a query, in order, empty sequences skipped. *)
Definition form_params (q : string) : list (string * string) :=
  map form_pair (filter (fun s => s <> "") (split_on "&" q)).

Definition url_params (u : string) : list (string * string) :=
  match url_query u with Some q => form_params q | None => [] end.

(** ** Sample configurations *)

(** An API key holding [&]: the rest of it reads as a parameter. *)
Definition injected_config : JackettConfig :=
  {| cfg_url := "http://h"; cfg_altUrl := ""; cfg_apiKey := "K&t=search" |}.

(** An indexer whose identifier holds a [/]. *)
Definition slashed_entry : jsval :=
  JObj [("id", JStr "a/b"); ("title", JStr "AB");
        ("caps", JObj [("categories", JObj [("category", JObj [("id", JStr "2000")])])])].

(** ** Splitting lemmas *)

Lemma string_app_assoc (a b c : string) : a +:+ (b +:+ c) = (a +:+ b) +:+ c.
Proof. induction a as [|x a IH]; [done|]. by rewrite !append_cons, IH. Qed.

Lemma append_empty_l (s : string) : "" +:+ s = s.
Proof. reflexivity. Qed.

Lemma no_char_cons (c d : ascii) (s : string) :
  no_char c (String d s) = negb (Ascii.eqb c d) && no_char c s.
Proof. unfold no_char. cbn. by destruct (Ascii.eqb c d). Qed.

Lemma no_char_app (c : ascii) (a b : string) :
  no_char c (a +:+ b) = no_char c a && no_char c b.
Proof.
  induction a as [|d a IH]; [done|].
  change (String d a +:+ b) with (String d (a +:+ b)). rewrite !no_char_cons, IH.
  by destruct (Ascii.eqb c d).
Qed.

Lemma split_on_not_nil (sep : ascii) (s : string) : split_on sep s <> [].
Proof.
  destruct s as [|c s]; cbn [split_on]; [done|].
  destruct (Ascii.eqb c sep); [done|]. by destruct (split_on sep s).
Qed.

(** The pieces of [a], then those of [b], when [sep] stands between. *)
Lemma split_on_app (sep : ascii) (a b : string) :
  split_on sep (a +:+ String sep b) = split_on sep a ++ split_on sep b.
Proof.
  induction a as [|c a IH].
  - rewrite append_empty_l. cbn -[Ascii.eqb]. by rewrite Ascii.eqb_refl.
  - rewrite append_cons. cbn -[Ascii.eqb]. destruct (Ascii.eqb c sep); [by rewrite IH|].
    rewrite IH. pose proof (split_on_not_nil sep a). by destruct (split_on sep a).
Qed.

Lemma split_on_no (sep : ascii) (s : string) :
  no_char sep s = true -> split_on sep s = [s].
Proof.
  induction s as [|c s IH]; [done|]. rewrite no_char_cons.
  intros [Hc Hs]%andb_prop. cbn. rewrite Ascii.eqb_sym.
  destruct (Ascii.eqb sep c); [done|]. by rewrite IH.
Qed.

(** Cutting at the first [sep] goes past a prefix without [sep]. *)
Lemma break_at_app (sep : ascii) (a b : string) :
  no_char sep a = true -> break_at sep (a +:+ b) = (a +:+ (break_at sep b).1, (break_at sep b).2).
Proof.
  induction a as [|c a IH]; [intros _; rewrite !append_empty_l; by destruct (break_at sep b)|].
  rewrite append_cons, no_char_cons. intros [Hc Ha]%andb_prop. cbn -[Ascii.eqb]. rewrite Ascii.eqb_sym.
  destruct (Ascii.eqb sep c); [done|]. by rewrite IH.
Qed.

Lemma break_at_no (sep : ascii) (s : string) :
  no_char sep s = true -> break_at sep s = (s, None).
Proof.
  intros H. rewrite <-(append_empty_r s) at 1. rewrite break_at_app by done. cbn -[Ascii.eqb]. by rewrite append_empty_r.
Qed.

Lemma break_at_sep (sep : ascii) (a b : string) :
  no_char sep a = true -> break_at sep (a +:+ String sep b) = (a, Some b).
Proof. intros H. rewrite break_at_app by done. cbn -[Ascii.eqb]. by rewrite Ascii.eqb_refl, append_empty_r. Qed.

Lemma form_params_app (a b : string) :
  form_params (a +:+ String "&" b) = form_params a ++ form_params b.
Proof. unfold form_params. by rewrite split_on_app, filter_app, map_app. Qed.

Lemma form_params_no (s : string) :
  no_char "&" s = true -> s <> "" -> form_params s = [form_pair s].
Proof. intros H Hne. unfold form_params. rewrite split_on_no by done. cbn. by rewrite decide_True. Qed.

(** ** Reading the two URLs *)

Lemma url_read_plain (u : string) :
  no_char "#" u = true -> no_char "?" u = true -> url_path u = u /\ url_query u = None.
Proof.
  intros Hf Hq. unfold url_path, url_query, url_no_fragment.
  rewrite (break_at_no "#" u Hf). cbn [fst]. by rewrite (break_at_no "?" u Hq).
Qed.

Lemma form_params_apikey (k : string) :
  no_char "&" k = true -> form_params ("apikey=" +:+ k) = [("apikey", form_decode k)].
Proof.
  intros Hk. rewrite form_params_no; [|by rewrite no_char_app|done].
  unfold form_pair. change ("apikey=" +:+ k) with ("apikey" +:+ String "=" k).
  by rewrite break_at_sep.
Qed.

(** The discovery URL: its path is the base URL's followed by the
    torznab path, and its query is read as the parameters of
    ["apikey=" ++ key] followed by [t] and [configured]. *)
Lemma requestUrl_query (c : JackettConfig) :
  no_char "?" (cfg_url c) = true -> no_char "#" (cfg_url c) = true ->
  no_char "#" (cfg_apiKey c) = true ->
  url_path (requestUrl (new_Jackett c)) = cfg_url c +:+ "/api/v2.0/indexers/all/results/torznab/api" /\
  url_params (requestUrl (new_Jackett c)) =
    form_params ("apikey=" +:+ cfg_apiKey c) ++ [("t", "indexers"); ("configured", "true")].
Proof.
  intros Hq Hf Hk. cbn [requestUrl new_Jackett].
  set (tail := "&t=indexers&configured=true").
  assert (Hu : no_char "#" (cfg_url c +:+ "/api/v2.0/indexers/all/results/torznab/api?apikey="
                              +:+ cfg_apiKey c +:+ tail) = true).
  { by rewrite !no_char_app, Hf, Hk. }
  unfold url_path, url_params, url_query, url_no_fragment. rewrite (break_at_no _ _ Hu). cbn [fst].
  change ("/api/v2.0/indexers/all/results/torznab/api?apikey=" +:+ cfg_apiKey c +:+ tail)
    with ("/api/v2.0/indexers/all/results/torznab/api" +:+ String "?" ("apikey=" +:+ cfg_apiKey c +:+ tail)).
  rewrite string_app_assoc, break_at_sep by (rewrite no_char_app, Hq; done).
  split; [done|]. cbn [snd]. unfold tail.
  change ("&t=indexers&configured=true") with (String "&" "t=indexers&configured=true").
  by rewrite string_app_assoc, form_params_app.
Qed.

(** The endpoint of a record [mapToIndexer] returns. *)
Lemma mapToIndexer_url (j : Jackett) (v : jsval) (i : Indexer) (s : string) :
  mapToIndexer j v = Ok i -> to_string (idx_id i) = Ok s ->
  idx_url i = base_url j +:+ "/api/v2.0/indexers/" +:+ s +:+ "/results/torznab/".
Proof.
  intros Hm Hs. apply mapToIndexer_typed in Hm. unfold indexer_typed in Hm.
  rewrite Hs in Hm. apply andb_prop in Hm as [_ Hm]. by apply String.eqb_eq.
Qed.

(** ** Properties *)

(** [C22] Round trip of the discovery URL: when the base URL holds
    neither [?] nor [#] and the API key holds neither [&] nor [#], a
    server reads the path of the torznab API on the base URL, and
    exactly three parameters: [apikey] with the key (as the form
    decoding reads it, the key itself when it has no [+] or [%]), [t]
    with [indexers] and [configured] with [true]. *)
Theorem requestUrl_read (c : JackettConfig) :
  no_char "?" (cfg_url c) = true -> no_char "#" (cfg_url c) = true ->
  no_char "&" (cfg_apiKey c) = true -> no_char "#" (cfg_apiKey c) = true ->
  url_path (requestUrl (new_Jackett c)) = cfg_url c +:+ "/api/v2.0/indexers/all/results/torznab/api" /\
  url_params (requestUrl (new_Jackett c)) =
    [("apikey", form_decode (cfg_apiKey c)); ("t", "indexers"); ("configured", "true")].
Proof.
  intros Hq Hf Ha Hk. destruct (requestUrl_query c Hq Hf Hk) as [Hp ->].
  split; [done|]. by rewrite form_params_apikey.
Qed.

(** [C23] The endpoint of every record [mapToIndexer] returns is read
    as the path segments of the base URL, then [api], [v2.0],
    [indexers], the segments of the printed identifier, [results],
    [torznab] and an empty last segment: the identifier is one segment
    exactly when it holds no [/]; and when neither the base URL nor the
    identifier holds [?] or [#], the endpoint has no query. *)
Theorem mapToIndexer_endpoint_read (j : Jackett) (v : jsval) (i : Indexer) (s : string) :
  mapToIndexer j v = Ok i -> to_string (idx_id i) = Ok s ->
  split_on "/" (idx_url i) =
    split_on "/" (base_url j) ++ ["api"; "v2.0"; "indexers"] ++ split_on "/" s ++ ["results"; "torznab"; ""] /\
  (forallb (fun c => no_char c (base_url j) && no_char c s) ["?"; "#"]%char = true ->
   url_query (idx_url i) = None).
Proof.
  intros Hm Hs. rewrite (mapToIndexer_url j v i s Hm Hs). split.
  - change ("/api/v2.0/indexers/" +:+ s +:+ "/results/torznab/") with
      (String "/" ("api" +:+ String "/" ("v2.0" +:+ String "/" ("indexers" +:+ String "/"
         (s +:+ String "/" ("results" +:+ String "/" ("torznab" +:+ String "/" ""))))))).
    rewrite !split_on_app. reflexivity.
  - cbn -[no_char]. rewrite !andb_true_r. intros [[Hq1 Hq2]%andb_prop [Hf1 Hf2]%andb_prop]%andb_prop.
    apply url_read_plain; by rewrite !no_char_app, ?Hq1, ?Hq2, ?Hf1, ?Hf2.
Qed.

(** [C24] The API key is interpolated unescaped: when it holds a [&],
    the [apikey] parameter holds only the part before it, and the rest
    of the key is read as further parameters, placed before [t] and
    [configured]. *)
Theorem requestUrl_key_injection (c : JackettConfig) (k1 k2 : string) :
  no_char "?" (cfg_url c) = true -> no_char "#" (cfg_url c) = true ->
  no_char "#" (cfg_apiKey c) = true ->
  cfg_apiKey c = k1 +:+ String "&" k2 -> no_char "&" k1 = true ->
  url_params (requestUrl (new_Jackett c)) =
    ("apikey", form_decode k1) :: form_params k2 ++ [("t", "indexers"); ("configured", "true")].
Proof.
  intros Hq Hf Hk Hkey H1. destruct (requestUrl_query c Hq Hf Hk) as [_ ->].
  rewrite Hkey, string_app_assoc, form_params_app, form_params_apikey by done. done.
Qed.

(** ** Witnesses *)

Lemma requestUrl_read_witness :
  url_path (requestUrl (new_Jackett sample_config)) = "http://h/api/v2.0/indexers/all/results/torznab/api" /\
  url_params (requestUrl (new_Jackett sample_config)) =
    [("apikey", "K"); ("t", "indexers"); ("configured", "true")].
Proof.
  exact (requestUrl_read sample_config eq_refl eq_refl eq_refl eq_refl).
Defined.

(** The identifier [a/b] is read as two segments. *)
Lemma mapToIndexer_endpoint_read_witness :
  mapToIndexer (new_Jackett sample_config) slashed_entry = Ok
    {| idx_id := JStr "a/b"; idx_priority := Finite false 0; idx_name := JStr "AB";
       idx_protocol := "torrent"; idx_categories := [Finite false 2000];
       idx_reserved := Finite false 0;
       idx_url := "http://h/api/v2.0/indexers/a/b/results/torznab/"; idx_apiKey := "K" |} /\
  split_on "/" "http://h/api/v2.0/indexers/a/b/results/torznab/" =
    ["http:"; ""; "h"; "api"; "v2.0"; "indexers"; "a"; "b"; "results"; "torznab"; ""] /\
  url_query "http://h/api/v2.0/indexers/a/b/results/torznab/" = None.
Proof.
  assert (Hm : mapToIndexer (new_Jackett sample_config) slashed_entry = Ok
    {| idx_id := JStr "a/b"; idx_priority := Finite false 0; idx_name := JStr "AB";
       idx_protocol := "torrent"; idx_categories := [Finite false 2000];
       idx_reserved := Finite false 0;
       idx_url := "http://h/api/v2.0/indexers/a/b/results/torznab/"; idx_apiKey := "K" |})
    by reflexivity.
  destruct (mapToIndexer_endpoint_read _ _ _ "a/b" Hm eq_refl) as [Hs Hq].
  split_and!; [exact Hm|exact Hs|exact (Hq eq_refl)].
Defined.

(** The key [K&t=search] adds a second [t] parameter. *)
Lemma requestUrl_key_injection_witness :
  url_params (requestUrl (new_Jackett injected_config)) =
    [("apikey", "K"); ("t", "search"); ("t", "indexers"); ("configured", "true")].
Proof.
  exact (requestUrl_key_injection injected_config "K" "t=search" eq_refl eq_refl eq_refl eq_refl eq_refl).
Defined.
