(* ===== verification/Errors.v ===== *)
(** * How [get] fails: the exceptions it can reject with

    The spec (sec. 7) lists three kinds of failure: a service error, a
    malformed response and a category identifier that does not parse.
    The code raises exactly one [Error] of its own ([throw new
    Error('Jackett: ' + ...)], line 34); every other failure is an
    exception of the engine: the TypeError of a property read on
    undefined or null, of calling [map] on a value that is not an
    array, or of converting to a primitive an object with its own
    [toString].  A category identifier that does not parse is not an
    exception at all ([parseInt] returns NaN).

    [type_errors_only r] holds of a completion that is a value or a
    TypeError; the lemmas of this file carry it through [bind],
    [js_map], [call_map] and the state monad of [parseCategories], and
    the hint database [exn] applies them.  The theorem classifies every
    rejection of [get]. *)

From stdpp Require Import base list strings.
From S2P Require Import Prelude JsNumber JsValue ParseInt Categories Indexer Async Jackett.

Local Open Scope js_scope.

Definition is_type_error (e : exn) : bool :=
  match e with TypeError _ => true | _ => false end.

(** A completion that is a value or a TypeError. *)
Definition type_errors_only {A} (r : res A) : bool :=
  match r with Ok _ => true | Throw e => is_type_error e end.

(** A stateful computation that, from every state, returns or throws a
    TypeError. *)
Definition st_type_errors_only {S A} (m : St S A) : Prop :=
  forall s, type_errors_only (m s) = true.

(** A transport that rejects every request, as axios does when the
    server cannot be reached. *)
Definition offline_transport : HttpTransport :=
  {| http_get := fun _ => Throw (RequestError "Network Error") |}.

(** ** Carrying [type_errors_only] *)

Create HintDb exn.

Lemma te_bind {A B} (r : res A) (f : A -> res B) :
  type_errors_only r = true -> (forall a, type_errors_only (f a) = true) ->
  type_errors_only (bind r f) = true.
Proof. destruct r; simpl; auto. Qed.

Lemma te_ok {A} (a : A) : type_errors_only (Ok a) = true.
Proof. done. Qed.

Lemma te_get_prop (v : jsval) (k : string) : type_errors_only (get_prop v k) = true.
Proof. by destruct v. Qed.

Lemma te_to_string (v : jsval) : type_errors_only (to_string v) = true.
Proof. by destruct (to_string_cases v) as [[s ->]| ->]. Qed.

Lemma te_parseInt (v : jsval) : type_errors_only (parseInt v) = true.
Proof. unfold parseInt. apply te_bind; [apply te_to_string|done]. Qed.

Lemma te_js_map {A B} (f : A -> res B) (l : list A) :
  (forall x, type_errors_only (f x) = true) -> type_errors_only (js_map f l) = true.
Proof. intros Hf. induction l as [|x l IH]; simpl; [done|]. apply te_bind; [done|]. intros y. by apply te_bind. Qed.

Lemma te_call_map {B} (callee : string) (v : jsval) (f : jsval -> res B) :
  (forall x, type_errors_only (f x) = true) -> type_errors_only (call_map callee v f) = true.
Proof. intros Hf. destruct v; simpl; auto using te_js_map. Qed.

Lemma te_st_lift {S A} (r : res A) : type_errors_only r = true -> @st_type_errors_only S A (st_lift r).
Proof. intros Hr s. by destruct r. Qed.

Lemma te_st_ret {S A} (a : A) : @st_type_errors_only S A (st_ret a).
Proof. done. Qed.

Lemma te_push {X} (x : X) : st_type_errors_only (push x).
Proof. done. Qed.

Lemma te_st_bind {S A B} (m : St S A) (f : A -> St S B) :
  st_type_errors_only m -> (forall a, st_type_errors_only (f a)) -> st_type_errors_only (st_bind m f).
Proof.
  intros Hm Hf s. unfold st_bind. specialize (Hm s).
  destruct (m s) as [[a s']|e]; [apply Hf|done].
Qed.

Lemma te_st_map {S A B} (f : A -> St S B) (l : list A) :
  (forall x, st_type_errors_only (f x)) -> st_type_errors_only (st_map f l).
Proof.
  intros Hf. induction l as [|x l IH]; simpl; [apply te_st_ret|].
  apply te_st_bind; [done|]. intros y. apply te_st_bind; [done|]. intros ys. apply te_st_ret.
Qed.

Lemma te_throw {A} (r : res A) (e : exn) : type_errors_only r = true -> r = Throw e -> is_type_error e = true.
Proof. by intros Hr ->. Qed.

#[export] Hint Resolve te_ok te_get_prop te_to_string te_parseInt te_st_ret te_push : exn.
#[export] Hint Extern 2 (type_errors_only (bind _ _) = true) => apply te_bind; intros : exn.
#[export] Hint Extern 2 (st_type_errors_only (st_bind _ _)) => apply te_st_bind; intros : exn.
#[export] Hint Extern 2 (st_type_errors_only (st_lift _)) => apply te_st_lift : exn.
#[export] Hint Extern 2 (st_type_errors_only (st_map _ _)) => apply te_st_map; intros : exn.
#[export] Hint Extern 2 (type_errors_only (call_map _ _ _) = true) => apply te_call_map; intros : exn.

(** ** The operations *)

Lemma te_push_id (x : jsval) : st_type_errors_only (push_id x).
Proof. unfold push_id. eauto 10 with exn. Qed.
#[export] Hint Resolve te_push_id : exn.

Lemma te_category_cb (cat : jsval) : st_type_errors_only (category_cb cat).
Proof.
  unfold category_cb. apply te_st_bind; [auto with exn|]. intros _.
  apply te_st_bind; [auto with exn|]. intros sub.
  destruct (truthy sub); [destruct sub|]; eauto 10 with exn.
Qed.
#[export] Hint Resolve te_category_cb : exn.

Lemma te_parseCategories (v : jsval) : type_errors_only (parseCategories v) = true.
Proof.
  unfold parseCategories. pose proof (te_st_map category_cb (as_array v) te_category_cb []) as H.
  by destruct (st_map category_cb (as_array v) []) as [[]|].
Qed.
#[export] Hint Resolve te_parseCategories : exn.

Lemma te_mapToIndexer (j : Jackett) (v : jsval) : type_errors_only (mapToIndexer j v) = true.
Proof. unfold mapToIndexer. eauto 20 with exn. Qed.
#[export] Hint Resolve te_mapToIndexer : exn.

(** Past the error check, [get_parsed] throws only TypeErrors; its
    only [Error] is the service error, raised on a truthy [error]. *)
Lemma get_parsed_throw (j : Jackett) (v : jsval) (e : exn) :
  get_parsed j v = Throw e ->
  (exists err s, get_prop v "error" = Ok err /\ truthy err = true /\ e = Error ("Jackett: " +:+ s)) \/
  is_type_error e = true.
Proof.
  unfold get_parsed. intros H.
  destruct (get_prop v "error") as [err|e'] eqn:Herr;
    [|simpl in H; injection H as <-; right; exact (te_throw _ _ (te_get_prop v "error") Herr)].
  simpl in H. destruct (truthy err) eqn:Ht.
  - destruct (get_prop err "description") as [d|e'] eqn:Hd; simpl in H;
      [|injection H as <-; right; exact (te_throw _ _ (te_get_prop err "description") Hd)].
    destruct (to_string d) as [s|e'] eqn:Hs; simpl in H; injection H as <-; [left; eauto|].
    right. exact (te_throw _ _ (te_to_string d) Hs).
  - right. refine (te_throw _ _ _ H). eauto 20 with exn.
Qed.

(** ** Properties *)

(** [C25] Error taxonomy: every rejection of [get] is the rejection of
    its HTTP request, passed on unchanged; or, on a received body, the
    service [Error] ("Jackett: " and a description), raised only when
    the parsed response has a truthy [error]; or a TypeError of the
    engine.  No other exception escapes, in particular no [Error]
    without the prefix, and none for a category identifier that does
    not parse. *)
Theorem get_rejections `{HttpTransport} `{XmlParser} (c : JackettConfig) (e : exn) :
  run (get (new_Jackett c)) = Throw e ->
  http_get (discovery_url c) = Throw e \/
  exists body, http_get (discovery_url c) = Ok body /\
    ((exists err s, get_prop (xml_parse parseOpts body) "error" = Ok err /\ truthy err = true /\
                    e = Error ("Jackett: " +:+ s)) \/
     is_type_error e = true).
Proof.
  rewrite run_get. destruct (http_get (discovery_url c)) as [body|e'] eqn:Hg; simpl; intros Hr.
  - right. exists body. split; [done|]. by apply get_parsed_throw in Hr.
  - left. by injection Hr as ->.
Qed.

(** ** Witnesses *)

(** An unreachable server: [get] rejects with the request's error. *)
Lemma get_rejections_witness :
  @run offline_transport _ (@get sample_parser (new_Jackett sample_config))
    = Throw (RequestError "Network Error") /\
  (@http_get offline_transport (discovery_url sample_config) = Throw (RequestError "Network Error") \/
   exists body, @http_get offline_transport (discovery_url sample_config) = Ok body /\
     ((exists err s, get_prop (@xml_parse sample_parser parseOpts body) "error" = Ok err /\
                     truthy err = true /\ RequestError "Network Error" = Error ("Jackett: " +:+ s)) \/
      is_type_error (RequestError "Network Error") = true)).
Proof.
  split; [reflexivity|].
  exact (@get_rejections offline_transport sample_parser sample_config _ eq_refl).
Defined.
